(** * Deer homepage: the service worker (sw.js) and the friend-link relay

    A shallow embedding of the two programs of the repository that carry
    behaviour worth stating:

    - [sw.js], the service worker: request classification, the three
      fetch strategies, the offline fallback, and the install / activate
      lifecycle, over an explicit model of the browser's [CacheStorage];
    - [push_friend_link.js], the Cloudflare worker relaying a friend-link
      application to Telegram or Feishu;
    - the page-side code around them: the worker's message channel, the
      service worker manager and the quote API manager of [api.js], the
      bounded logs of the analytics and error-handling modules, and the
      resource loading of [app.js].

    Promises are modelled by their settlement: a computation either
    returns, throws, or never settles.  The network is an explicit oracle
    consulted once per [fetch] call. *)

From Stdlib Require Import ZArith Ascii String DecimalString.
From stdpp Require Import gmap strings list fin_maps.

Set Warnings "-register-all".

Local Open Scope string_scope.

(** ** JavaScript string primitives *)

Module JsString.

(** [s.startsWith(p)]. *)
Definition startsWith (s p : string) : bool := String.prefix p s.

(** [s.includes(p)]: [p] occurs in [s] at some position. *)
Fixpoint includes (s p : string) : bool :=
  startsWith s p ||
  match s with
  | EmptyString => false
  | String _ rest => includes rest p
  end.

(** [s.endsWith(p)], as ECMAScript defines it: with [start] the length
    of [s] minus the length of [p], the answer is [false] when [start]
    is negative and otherwise whether the [length p] characters of [s]
    from [start] are those of [p]. *)
Definition endsWith (s p : string) : bool :=
  if (String.length p <=? String.length s)%nat
  then String.eqb (String.substring (String.length s - String.length p)
                                    (String.length p) s) p
  else false.

(** The one-character string holding a double quote. *)
Definition dquote : string := String "034"%char EmptyString.

(** A line feed, the [\n] of a JavaScript literal. *)
Definition lf : string := String "010"%char EmptyString.

(** Lower case of the ASCII letters, as header names are compared. *)
Definition lower_char (c : ascii) : ascii :=
  let n := nat_of_ascii c in
  if ((65 <=? n) && (n <=? 90))%nat then ascii_of_nat (n + 32) else c.

Fixpoint toLowerCase (s : string) : string :=
  match s with
  | EmptyString => EmptyString
  | String c rest => String (lower_char c) (toLowerCase rest)
  end.

(** [s.split(sep)] for a separator of one character. *)
Fixpoint split_on (sep : ascii) (s : string) : list string :=
  match s with
  | EmptyString => [EmptyString]
  | String c rest =>
      if Ascii.eqb c sep then EmptyString :: split_on sep rest
      else match split_on sep rest with
           | [] => [String c EmptyString]
           | piece :: pieces => String c piece :: pieces
           end
  end.

(** HTTP white space: tab, line feed, carriage return, space. *)
Definition is_http_space (c : ascii) : bool :=
  let n := nat_of_ascii c in
  ((n =? 9) || (n =? 10) || (n =? 13) || (n =? 32))%nat.

Fixpoint trim_start (s : string) : string :=
  match s with
  | EmptyString => EmptyString
  | String c rest => if is_http_space c then trim_start rest else s
  end.

Definition reverse (s : string) : string :=
  string_of_list_ascii (rev (list_ascii_of_string s)).

(** A string without its leading and trailing HTTP white space. *)
Definition trim (s : string) : string :=
  reverse (trim_start (reverse (trim_start s))).

End JsString.

(** ** The service worker *)

Module ServiceWorker.
Import JsString.

(** *** Requests and responses *)

(** The parts of a [Request] that sw.js and the cache read.  [url] is
    the serialized absolute URL, fragment included, which is what
    [request.url] holds in a fetch event, so [new URL(request.url).href]
    is [url] again.  [request_headers] is the header list, which the
    cache compares when a stored response has a [Vary] header. *)
Record Request := mkRequest {
  url : string;
  method : string;
  destination : string;
  request_headers : list (string * string)
}.

(** The parts of a [Response] that matter to the cache layer. *)
Record Response := mkResponse {
  status : nat;
  headers : list (string * string);
  body : string
}.

#[global] Instance Response_eq_dec : EqDecision Response.
Proof. solve_decision. Defined.

(** [response.ok]: the status is in the range 200-299. *)
Definition ok (r : Response) : bool :=
  ((200 <=? status r) && (status r <=? 299))%nat.

(** *** Constants of sw.js *)

Definition STATIC_CACHE : string := "static-v2.0.0".
Definition DYNAMIC_CACHE : string := "dynamic-v2.0.0".
Definition API_CACHE : string := "api-v2.0.0".

Definition STATIC_ASSETS : list string :=
  [ "/";
    "/index.html";
    "/assets/css/style.css";
    "/assets/js/app.js";
    "/assets/js/main.js";
    "/assets/js/modules/config.js";
    "/assets/js/modules/utils.js";
    "/assets/js/modules/background.js";
    "/assets/js/modules/api.js";
    "/assets/js/modules/ui.js";
    "/assets/img/logo-optimized.png";
    "/assets/img/favicon.ico";
    "/assets/img/mouse.png";
    "/assets/fonts/AlimamaDaoLiTi-Regular.woff2";
    "/assets/sounds/click-blank.wav";
    "/assets/sounds/click-btn.wav";
    "/assets/sounds/click-back.wav";
    "/manifest.json" ].

Definition NETWORK_FIRST : list string :=
  [ "https://v1.hitokoto.cn/";
    "https://api.uomg.com/";
    "https://bing.img.run/";
    "https://api.dujin.org/";
    "https://home-push-friend-link.952780.xyz/" ].

Definition CACHE_FIRST : list string :=
  [ "https://cdnjs.cloudflare.com/";
    "https://cdn.jsdelivr.net/";
    "https://unpkg.com/" ].

(** *** URL predicates *)

(** [Array.prototype.some]. *)
Definition some {A} (p : A -> bool) (l : list A) : bool := existsb p l.

Definition isAPIRequest (u : string) : bool :=
  some (fun pattern => includes u pattern) NETWORK_FIRST.

Definition isCDNRequest (u : string) : bool :=
  some (fun pattern => includes u pattern) CACHE_FIRST.

Definition isStaticAsset (u : string) : bool :=
  some (fun asset => endsWith u asset) STATIC_ASSETS.

(** [new URL(u).protocol] of a serialized URL: the scheme with its
    colon, that is the characters up to and including the first [:]. *)
Fixpoint protocol (u : string) : string :=
  match u with
  | EmptyString => EmptyString
  | String c rest =>
      if Ascii.eqb c ":" then ":" else String c (protocol rest)
  end.

(** [new URL(u).pathname] of a serialized http(s) URL: what follows
    the authority, up to the query or the fragment. *)
Fixpoint after_scheme (u : string) : string :=
  match u with
  | EmptyString => EmptyString
  | String _ rest =>
      if startsWith u "://" then String.substring 3 (String.length u - 3) u
      else after_scheme rest
  end.

Fixpoint from_slash (s : string) : string :=
  match s with
  | EmptyString => EmptyString
  | String c rest => if Ascii.eqb c "/" then s else from_slash rest
  end.

Fixpoint until_query (s : string) : string :=
  match s with
  | EmptyString => EmptyString
  | String c rest =>
      if Ascii.eqb c "?" || Ascii.eqb c "#" then EmptyString
      else String c (until_query rest)
  end.

Definition pathname (u : string) : string :=
  until_query (from_slash (after_scheme u)).

(** *** Header lists *)

(** The values of the headers called [name], names compared without
    regard to case. *)
Definition header_values (name : string) (hs : list (string * string))
    : list string :=
  map snd
    (List.filter (fun h => String.eqb (toLowerCase h.1) (toLowerCase name)) hs).

(** The combined value of the header [name]: its values joined by a
    comma and a space; [None] when the list has no such header. *)
Definition header_get (name : string) (hs : list (string * string))
    : option string :=
  match header_values name hs with
  | [] => None
  | values => Some (String.concat ", " values)
  end.

Definition same_header (name : string) (hs1 hs2 : list (string * string))
    : bool :=
  match header_get name hs1, header_get name hs2 with
  | Some v1, Some v2 => String.eqb v1 v2
  | None, None => true
  | _, _ => false
  end.

(** The field names that the [Vary] header of a response lists. *)
Definition vary_fields (response : Response) : list string :=
  match header_get "vary" (headers response) with
  | None => []
  | Some value => map trim (split_on "," value)
  end.

(** The response has [Vary: *]. *)
Definition vary_star (response : Response) : bool :=
  existsb (fun field => String.eqb field "*") (vary_fields response).

(** *** The cache registry: the browser's [CacheStorage]

    A generation is a named [Cache]: the list, in insertion order, of
    the stored request/response pairs.  Of the stored request the cache
    uses the URL, compared with the fragment left out, and the headers
    that the stored response's [Vary] names.  [CacheStorage] keeps its
    caches in creation order, which is the order [caches.keys()] lists
    them in and the order [caches.match] searches them in.  Storage
    operations are taken not to fail for reasons of their own (quota,
    a closed database). *)

Record Entry := mkEntry {
  entry_url : string;
  entry_headers : list (string * string);
  entry_response : Response
}.

Definition CacheStorage : Type := list (string * list Entry).

(** A URL without its fragment: what precedes the first [#]. *)
Fixpoint without_fragment (u : string) : string :=
  match u with
  | EmptyString => EmptyString
  | String c rest =>
      if Ascii.eqb c "#" then EmptyString
      else String c (without_fragment rest)
  end.

(** The scheme is [http] or [https]: the cache takes no other. *)
Definition http_scheme (u : string) : bool :=
  String.eqb (protocol u) "http:" || String.eqb (protocol u) "https:".

(** "Request matches cached item" of the Cache API, with the default
    options: a GET request, the same URL up to the fragment, and, for
    every field of the stored response's [Vary], a field that is not [*]
    and on which the request and the stored request carry the same
    value. *)
Definition matches (request : Request) (e : Entry) : bool :=
  String.eqb (method request) "GET"
  && String.eqb (without_fragment (url request)) (entry_url e)
  && forallb (fun field =>
                negb (String.eqb field "*")
                && same_header field (request_headers request)
                               (entry_headers e))
             (vary_fields (entry_response e)).

(** [cache.match(request)]: the response of the first stored pair that
    the request matches. *)
Definition cache_match (request : Request) (c : list Entry)
    : option Response :=
  option_map entry_response (List.find (matches request) c).

(** [cache.put(request, response)] is refused, with a [TypeError],
    for a request that is not a GET of an http(s) URL, for a partial
    response (status 206), and for a response with [Vary: *]. *)
Definition put_refused (request : Request) (response : Response) : bool :=
  negb (http_scheme (url request))
  || negb (String.eqb (method request) "GET")
  || (status response =? 206)%nat
  || vary_star response.

(** A [put] that is not refused: the pairs that the request matches
    are removed and the new pair is added last. *)
Definition put_entry (request : Request) (response : Response)
    (c : list Entry) : list Entry :=
  (List.filter (fun e => negb (matches request e)) c
   ++ [mkEntry (without_fragment (url request)) (request_headers request)
               response])%list.

(** [caches.keys()]. *)
Definition caches_keys (cs : CacheStorage) : list string := cs.*1.

(** [caches.has(name)]. *)
Definition caches_has (name : string) (cs : CacheStorage) : bool :=
  bool_decide (name ∈ caches_keys cs).

(** [caches.open(name)]: the cache is created, empty and last, when
    there is none of that name. *)
Definition caches_open (name : string) (cs : CacheStorage) : CacheStorage :=
  if caches_has name cs then cs else (cs ++ [(name, [])])%list.

(** The content of the cache called [name]; empty when there is none. *)
Fixpoint cache_of (name : string) (cs : CacheStorage) : list Entry :=
  match cs with
  | [] => []
  | (n, c) :: rest => if String.eqb n name then c else cache_of name rest
  end.

(** A [put] that is not refused, on the opened cache [name]. *)
Fixpoint put_in (name : string) (request : Request) (response : Response)
    (cs : CacheStorage) : CacheStorage :=
  match cs with
  | [] => []
  | (n, c) :: rest =>
      if String.eqb n name then (n, put_entry request response c) :: rest
      else (n, c) :: put_in name request response rest
  end.

(** [caches.open(name).then(cache => cache.put(request, response))]:
    the cache is opened, and so created if need be, also when the
    [put] is then refused. *)
Definition cache_put (name : string) (request : Request)
    (response : Response) (cs : CacheStorage) : CacheStorage :=
  let opened := caches_open name cs in
  if put_refused request response then opened
  else put_in name request response opened.

(** [caches.match(request)] on the [CacheStorage] object itself: every
    cache is searched, in creation order, and the first match found is
    the answer. *)
Fixpoint caches_match (request : Request) (cs : CacheStorage)
    : option Response :=
  match cs with
  | [] => None
  | (_, c) :: rest =>
      match cache_match request c with
      | Some response => Some response
      | None => caches_match request rest
      end
  end.

(** [caches.delete(name)]. *)
Definition caches_delete (name : string) (cs : CacheStorage) : CacheStorage :=
  List.filter (fun nc => negb (String.eqb nc.1 name)) cs.

(** *** The network and the settlement of promises *)

(** What the network does with one [fetch]: it answers after some
    milliseconds, fails after some milliseconds, or never settles. *)
Inductive NetResult :=
| Responds (latency : nat) (response : Response)
| Rejects (latency : nat)
| Hangs.

Definition Network : Type := string -> NetResult.

Inductive Error :=
| FetchFailed    (* the TypeError of a failed fetch *)
| Aborted        (* the AbortError of an aborted fetch *)
| AddAllFailed.  (* the TypeError of a rejected cache.addAll *)

(** How an awaited promise ends. *)
Inductive Settled (A : Type) :=
| Returned (a : A)
| Threw (e : Error)
| Pending.
Arguments Returned {A} a.
Arguments Threw {A} e.
Arguments Pending {A}.

(** [await fetch(request)]. *)
Definition net_fetch (net : Network) (request : Request) : Settled Response :=
  match net (url request) with
  | Responds _ response => Returned response
  | Rejects _ => Threw FetchFailed
  | Hangs => Pending
  end.

(** [await fetch(request, { signal })] with [controller.abort()]
    scheduled after [timeout] milliseconds: whatever has not settled
    by then is aborted. *)
Definition fetch_with_deadline (net : Network) (request : Request)
    (timeout : nat) : Settled Response :=
  match net (url request) with
  | Responds latency response =>
      if (latency <? timeout)%nat then Returned response else Threw Aborted
  | Rejects latency =>
      if (latency <? timeout)%nat then Threw FetchFailed else Threw Aborted
  | Hangs => Threw Aborted
  end.

(** *** Fetch strategies *)

Definition networkFirstWithTimeout (net : Network) (request : Request)
    (cacheName : string) (timeout : nat) (cs : CacheStorage)
    : CacheStorage * Settled Response :=
  match fetch_with_deadline net request timeout with
  | Returned response =>
      if ok response
      then (cache_put cacheName request response cs, Returned response)
      else (cs, Returned response)
  | Threw error =>
      match caches_match request cs with
      | Some cachedResponse => (cs, Returned cachedResponse)
      | None => (cs, Threw error)
      end
  | Pending => (cs, Pending)
  end.

(** The update is fired and not awaited; its write is applied to the
    registry the caller hands on. *)
Definition updateCacheInBackground (net : Network) (request : Request)
    (cacheName : string) (cs : CacheStorage) : CacheStorage :=
  match net_fetch net request with
  | Returned response =>
      if ok response then cache_put cacheName request response cs
      else cs
  | Threw _ => cs
  | Pending => cs
  end.

Definition cacheFirstWithNetworkFallback (net : Network) (request : Request)
    (cacheName : string) (cs : CacheStorage)
    : CacheStorage * Settled Response :=
  match caches_match request cs with
  | Some cachedResponse =>
      (updateCacheInBackground net request cacheName cs,
       Returned cachedResponse)
  | None =>
      match net_fetch net request with
      | Returned response =>
          if ok response
          then (cache_put cacheName request response cs,
                Returned response)
          else (cs, Returned response)
      | Threw error => (cs, Threw error)
      | Pending => (cs, Pending)
      end
  end.

Definition networkFirstWithCacheFallback (net : Network) (request : Request)
    (cacheName : string) (cs : CacheStorage)
    : CacheStorage * Settled Response :=
  match net_fetch net request with
  | Returned response =>
      if ok response
      then (cache_put cacheName request response cs, Returned response)
      else (cs, Returned response)
  | Threw error =>
      match caches_match request cs with
      | Some cachedResponse => (cs, Returned cachedResponse)
      | None => (cs, Threw error)
      end
  | Pending => (cs, Pending)
  end.

(** *** Offline fallback *)

Definition offline_html : string :=
    "<!DOCTYPE html>
        <html>
        <head>
            <title>离线模式</title>
            <meta charset=" +:+ dquote +:+
    "utf-8" +:+ dquote +:+
    ">
            <style>
                body { 
                    font-family: Arial, sans-serif; 
                    text-align: center; 
                    padding: 50px; 
                    background: #121212; 
                    color: #fff; 
                }
                .offline { 
                    max-width: 400px; 
                    margin: 0 auto; 
                }
            </style>
        </head>
        <body>
            <div class=" +:+ dquote +:+
    "offline" +:+ dquote +:+
    ">
                <h1>🔌 离线模式</h1>
                <p>当前网络不可用，请检查网络连接后重试。</p>
                <button onclick=" +:+ dquote +:+
    "location.reload()" +:+ dquote +:+
    ">重新加载</button>
            </div>
        </body>
        </html>".

(** [new Response(html, { headers: { 'Content-Type': 'text/html' } })]. *)
Definition offline_page : Response :=
  {| status := 200;
     headers := [("Content-Type", "text/html")];
     body := offline_html |}.

Section Worker.

(** The origin the worker is registered on, as in
    [https://example.org]: a path such as ['/'] given to the cache
    API names the URL [origin ++ path]. *)
Variable origin : string.

Definition resolve (path : string) : string := origin +:+ path.

Definition getOfflineFallback (request : Request) (cs : CacheStorage)
    : Response :=
  if String.eqb (destination request) "document" then
    match caches_match (mkRequest (resolve "/") "GET" "" []) cs with
    | Some cachedIndex => cachedIndex
    | None => offline_page
    end
  else offline_page.

(** *** Request handling *)

Definition handleRequest (net : Network) (request : Request)
    (cs : CacheStorage) : CacheStorage * Settled Response :=
  let attempt :=
    if isAPIRequest (url request) then
      networkFirstWithTimeout net request API_CACHE 3000 cs
    else if isCDNRequest (url request) then
      cacheFirstWithNetworkFallback net request DYNAMIC_CACHE cs
    else if isStaticAsset (url request) then
      cacheFirstWithNetworkFallback net request STATIC_CACHE cs
    else if String.eqb (destination request) "document" then
      networkFirstWithCacheFallback net request STATIC_CACHE cs
    else
      cacheFirstWithNetworkFallback net request DYNAMIC_CACHE cs in
  match attempt with
  | (cs', Threw _) => (cs', Returned (getOfflineFallback request cs'))
  | settled => settled
  end.

(** The fetch listener.  [None]: the listener returns without
    [event.respondWith], and the browser performs the request as if
    there were no worker. *)
Definition onFetch (net : Network) (request : Request)
    (cs : CacheStorage) : option (CacheStorage * Settled Response) :=
  if negb (String.eqb (method request) "GET") then None
  else if String.eqb (protocol (url request)) "chrome-extension:" then None
  else Some (handleRequest net request cs).

(** *** The classifier, as a rule list

    Section 4.2 of the specification describes request handling as a
    classifier: rules tried in a fixed order, the first that matches
    deciding the route.  A URL "matches a prefix" as [isAPIRequest] and
    [isCDNRequest] test it, and "matches a static-asset path" as
    [isStaticAsset] tests it. *)

Inductive Tier :=
| ApiNetworkFirst
| CdnCacheFirst
| StaticCacheFirst
| DocumentNetworkFirst
| DynamicCacheFirst.

Inductive Route :=
| Bypass
| Classified (tier : Tier).

Definition Rule : Type := (Request -> bool) * Route.

Definition first_match (rules : list Rule) (otherwise : Route)
    (request : Request) : Route :=
  match List.find (fun rule => rule.1 request) rules with
  | Some rule => rule.2
  | None => otherwise
  end.

Definition not_get : Rule :=
  (fun request => negb (String.eqb (method request) "GET"), Bypass).

Definition from_extension : Rule :=
  (fun request => String.eqb (protocol (url request)) "chrome-extension:",
   Bypass).

Definition tier_rules : list Rule :=
  [ (fun request => isAPIRequest (url request), Classified ApiNetworkFirst);
    (fun request => isCDNRequest (url request), Classified CdnCacheFirst);
    (fun request => isStaticAsset (url request), Classified StaticCacheFirst);
    (fun request => String.eqb (destination request) "document",
     Classified DocumentNetworkFirst) ].

(** The six rules of the specification. *)
Definition spec_classify : Request -> Route :=
  first_match (not_get :: tier_rules) (Classified DynamicCacheFirst).

(** The same list with the rule for browser-extension requests that the
    fetch listener has after the method test. *)
Definition classify : Request -> Route :=
  first_match (not_get :: from_extension :: tier_rules)
              (Classified DynamicCacheFirst).

(** The strategy and the generation of each tier. *)
Definition strategy_of (tier : Tier) (net : Network) (request : Request)
    (cs : CacheStorage) : CacheStorage * Settled Response :=
  match tier with
  | ApiNetworkFirst => networkFirstWithTimeout net request API_CACHE 3000 cs
  | CdnCacheFirst => cacheFirstWithNetworkFallback net request DYNAMIC_CACHE cs
  | StaticCacheFirst => cacheFirstWithNetworkFallback net request STATIC_CACHE cs
  | DocumentNetworkFirst =>
      networkFirstWithCacheFallback net request STATIC_CACHE cs
  | DynamicCacheFirst =>
      cacheFirstWithNetworkFallback net request DYNAMIC_CACHE cs
  end.

(** The [catch] of [handleRequest]: a strategy that throws is answered
    by the offline fallback. *)
Definition or_offline (request : Request)
    (attempt : CacheStorage * Settled Response)
    : CacheStorage * Settled Response :=
  match attempt with
  | (cs', Threw _) => (cs', Returned (getOfflineFallback request cs'))
  | settled => settled
  end.

(** Serving a route: a bypassed request is left to the browser. *)
Definition serve (route : Route) (net : Network) (request : Request)
    (cs : CacheStorage) : option (CacheStorage * Settled Response) :=
  match route with
  | Bypass => None
  | Classified tier => Some (or_offline request (strategy_of tier net request cs))
  end.

(** *** Generation-scoped lookup

    Section 4.1 of the specification asks of [match] that it search
    only the generation it is given. *)
Definition generation_match (cacheName : string) (request : Request)
    (cs : CacheStorage) : option Response :=
  cache_match request (cache_of cacheName cs).

(** The first generation, in creation order, that holds a pair the
    request matches. *)
Definition first_holder (request : Request) (cs : CacheStorage)
    : option (string * list Entry) :=
  List.find (fun nc => bool_decide (is_Some (cache_match request nc.2))) cs.

(** *** Network conditions *)

(** The network answers [request] before [timeout] milliseconds. *)
Definition in_time (net : Network) (request : Request) (timeout : nat) : bool :=
  match net (url request) with
  | Responds latency _ => (latency <? timeout)%nat
  | _ => false
  end.

(** The network gives the strategy of [request] no response: the fetch
    fails, or, on the API tier with its 3000 ms deadline, is aborted. *)
Definition network_fails (net : Network) (request : Request) : bool :=
  if isAPIRequest (url request) then negb (in_time net request 3000)
  else match net (url request) with
       | Rejects _ => true
       | _ => false
       end.


(** *** Registry invariants *)

(** Every stored entry is a successful response. *)
Definition all_ok (cs : CacheStorage) : Prop :=
  Forall (fun nc => Forall (fun e => ok (entry_response e) = true) nc.2) cs.

(** Every entry of [cs'] that is not an entry of the same generation of
    [cs] is a successful response. *)
Definition writes_ok (cs cs' : CacheStorage) : Prop :=
  forall name c' e,
    (name, c') ∈ cs' -> e ∈ c' ->
    ok (entry_response e) = true \/ exists c, (name, c) ∈ cs /\ e ∈ c.

(** *** Lifecycle *)

(** [cache.addAll(urls)]: each URL becomes a GET request without
    headers of its own and is fetched.  The call is rejected, and
    nothing is stored, when a URL is not http(s), when a fetch fails,
    when a response is not [ok], is partial (status 206) or has
    [Vary: *], and, once all have answered, when two of the requests
    match the same pair.  Otherwise all are stored. *)
Definition asset_request (u : string) : Request := mkRequest u "GET" "" [].

Definition asset_fails (net : Network) (u : string) : bool :=
  negb (http_scheme u)
  || match net u with
     | Responds _ response =>
         negb (ok response) || (status response =? 206)%nat
         || vary_star response
     | Rejects _ => true
     | Hangs => false
     end.

Fixpoint has_duplicate (keys : list string) : bool :=
  match keys with
  | [] => false
  | key :: rest => existsb (String.eqb key) rest || has_duplicate rest
  end.

Definition asset_hangs (net : Network) (u : string) : bool :=
  match net u with
  | Hangs => true
  | _ => false
  end.

Definition store_asset (net : Network) (cacheName : string)
    (cs : CacheStorage) (u : string) : CacheStorage :=
  match net u with
  | Responds _ response => put_in cacheName (asset_request u) response cs
  | _ => cs
  end.

Definition addAll (net : Network) (cacheName : string)
    (urls : list string) (cs : CacheStorage)
    : CacheStorage * Settled unit :=
  if existsb (asset_fails net) urls then (cs, Threw AddAllFailed)
  else if existsb (asset_hangs net) urls then (cs, Pending)
  else if has_duplicate (map without_fragment urls)
  then (cs, Threw AddAllFailed)
  else (foldl (store_asset net cacheName) cs urls, Returned tt).

(** What an install event leaves behind: how the promise given to
    [event.waitUntil] settles (the install succeeds when it
    returns), whether [self.skipWaiting()] was called, and the
    registry. *)
Record InstallResult := mkInstallResult {
  install_promise : Settled unit;
  skipWaiting_called : bool;
  install_caches : CacheStorage
}.

Definition onInstall (net : Network) (cs : CacheStorage) : InstallResult :=
  let opened := caches_open STATIC_CACHE cs in
  match addAll net STATIC_CACHE (map resolve STATIC_ASSETS) opened with
  | (cs', Returned _) =>
      (* .then(() => self.skipWaiting()) *)
      mkInstallResult (Returned tt) true cs'
  | (cs', Threw _) =>
      (* .catch(error => console.error(...)) *)
      mkInstallResult (Returned tt) false cs'
  | (cs', Pending) =>
      mkInstallResult Pending false cs'
  end.

(** What an activate event does: the caches it deleted, in order,
    the registry it leaves, and whether [clients.claim()] ran. *)
Record ActivateResult := mkActivateResult {
  deleted : list string;
  activate_caches : CacheStorage;
  claimed : bool
}.

Definition is_current (cacheName : string) : bool :=
  String.eqb cacheName STATIC_CACHE
  || String.eqb cacheName DYNAMIC_CACHE
  || String.eqb cacheName API_CACHE.

Definition delete_if_stale (acc : list string * CacheStorage)
    (cacheName : string) : list string * CacheStorage :=
  if negb (is_current cacheName)
  then ((acc.1 ++ [cacheName])%list, caches_delete cacheName acc.2)
  else acc.

Definition onActivate (cs : CacheStorage) : ActivateResult :=
  let cacheNames := caches_keys cs in
  let swept := foldl delete_if_stale ([], cs) cacheNames in
  mkActivateResult swept.1 swept.2 true.

(** *** Event sequences *)

Inductive Event :=
| InstallEvent (net : Network)
| ActivateEvent
| FetchEvent (net : Network) (request : Request).

Definition step (cs : CacheStorage) (ev : Event) : CacheStorage :=
  match ev with
  | InstallEvent net => install_caches (onInstall net cs)
  | ActivateEvent => activate_caches (onActivate cs)
  | FetchEvent net request =>
      match onFetch net request cs with
      | Some (cs', _) => cs'
      | None => cs
      end
  end.

Definition run (events : list Event) (cs : CacheStorage) : CacheStorage :=
  foldl step cs events.

End Worker.

End ServiceWorker.

(** ** The friend-link relay (push_friend_link.js) *)

Module Relay.
Import JsString.

(** *** JSON values *)

(** What [request.json()] yields.  A number is an integer below
    2^53 in magnitude, which JavaScript prints in plain decimal.  An
    object lists its members in the order of the text. *)
Inductive json :=
| JNull
| JBool (b : bool)
| JNum (n : Z)
| JStr (s : string)
| JArr (items : list json)
| JObj (members : list (string * json)).

(** A JavaScript value read off a parsed body: [None] is [undefined]. *)
Definition value : Type := option json.

(** ToBoolean. *)
Definition truthy (v : value) : bool :=
  match v with
  | None => false
  | Some JNull => false
  | Some (JBool b) => b
  | Some (JNum n) => negb (Z.eqb n 0)
  | Some (JStr s) => negb (String.eqb s "")
  | Some (JArr _) => true
  | Some (JObj _) => true
  end.

(** Property read on a parsed object: of a key written twice,
    [JSON.parse] keeps the last. *)
Fixpoint get (key : string) (members : list (string * json)) : value :=
  match members with
  | [] => None
  | (k, v) :: rest =>
      match get key rest with
      | Some later => Some later
      | None => if String.eqb k key then Some v else None
      end
  end.

Definition number_toString (n : Z) : string :=
  NilZero.string_of_int (Z.to_int n).

(** ToString of a parsed value, as a template literal applies it;
    [None] is the [TypeError] it can throw.  An array joins its
    elements with commas, [null] elements printing as nothing.  An
    object is converted by its [toString] method: a parsed object that
    has a member of its own called [toString] has a value there that is
    not callable, its [valueOf] gives the object back, and the
    conversion throws; any other parsed object inherits the method of
    [Object.prototype] and prints as [[object Object]]. *)
Fixpoint toString (v : json) : option string :=
  match v with
  | JNull => Some "null"
  | JBool true => Some "true"
  | JBool false => Some "false"
  | JNum n => Some (number_toString n)
  | JStr s => Some s
  | JArr items =>
      (fix join (l : list json) : option string :=
         match l with
         | [] => Some ""
         | x :: rest =>
             match match x with JNull => Some "" | _ => toString x end with
             | None => None
             | Some here =>
                 match rest with
                 | [] => Some here
                 | _ =>
                     match join rest with
                     | None => None
                     | Some others => Some (here +:+ "," +:+ others)
                     end
                 end
             end
         end) items
  | JObj members =>
      match get "toString" members with
      | Some _ => None
      | None => Some "[object Object]"
      end
  end.

Definition value_toString (v : value) : option string :=
  match v with
  | None => Some "undefined"
  | Some j => toString j
  end.

(** [a || b]. *)
Definition or_else (a : value) (b : json) : value :=
  if truthy a then a else Some b.

(** [data.key], for [data] other than [null]: only an object has
    members of its own, and the wrappers of the other values have none
    of the names the handler reads. *)
Definition field (key : string) (data : json) : value :=
  match data with
  | JObj members => get key members
  | _ => None
  end.

(** *** JSON.stringify *)

Definition hex_digit (n : nat) : ascii :=
  match n with
  | 0 => "0" | 1 => "1" | 2 => "2" | 3 => "3" | 4 => "4" | 5 => "5"
  | 6 => "6" | 7 => "7" | 8 => "8" | 9 => "9" | 10 => "a" | 11 => "b"
  | 12 => "c" | 13 => "d" | 14 => "e" | _ => "f"
  end%char.

Definition backslash : string := String (ascii_of_nat 92) EmptyString.

Definition escape_char (c : ascii) : string :=
  let n := nat_of_ascii c in
  if (n =? 34)%nat then backslash +:+ dquote
  else if (n =? 92)%nat then backslash +:+ backslash
  else if (n =? 8)%nat then backslash +:+ "b"
  else if (n =? 12)%nat then backslash +:+ "f"
  else if (n =? 10)%nat then backslash +:+ "n"
  else if (n =? 13)%nat then backslash +:+ "r"
  else if (n =? 9)%nat then backslash +:+ "t"
  else if (n <? 32)%nat then
    backslash +:+ "u00" +:+
    String (hex_digit (n / 16)) (String (hex_digit (n mod 16)) EmptyString)
  else String c EmptyString.

Fixpoint escape (s : string) : string :=
  match s with
  | EmptyString => EmptyString
  | String c rest => escape_char c +:+ escape rest
  end.

Definition quote (s : string) : string := dquote +:+ escape s +:+ dquote.

Fixpoint stringify (v : json) : string :=
  match v with
  | JNull => "null"
  | JBool true => "true"
  | JBool false => "false"
  | JNum n => number_toString n
  | JStr s => quote s
  | JArr items =>
      "[" +:+
      (fix elements (l : list json) : string :=
         match l with
         | [] => ""
         | x :: rest =>
             match rest with
             | [] => stringify x
             | _ => stringify x +:+ "," +:+ elements rest
             end
         end) items +:+ "]"
  | JObj members =>
      "{" +:+
      (fix properties (l : list (string * json)) : string :=
         match l with
         | [] => ""
         | (k, x) :: rest =>
             match rest with
             | [] => quote k +:+ ":" +:+ stringify x
             | _ => quote k +:+ ":" +:+ stringify x +:+ "," +:+ properties rest
             end
         end) members +:+ "}"
  end.

(** *** Requests, responses, environment *)

(** An incoming request: its method, and its body parsed as JSON,
    [None] when [request.json()] throws. *)
Record RelayRequest := mkRelayRequest {
  relay_method : string;
  json_body : option json
}.

Record RelayResponse := mkRelayResponse {
  relay_status : nat;
  relay_headers : list (string * string);
  relay_body : option string
}.

Definition corsResponse (body : option string) (status : nat)
    : RelayResponse :=
  {| relay_status := status;
     relay_headers := [ ("Access-Control-Allow-Origin", "*");
                  ("Access-Control-Allow-Methods", "POST, OPTIONS");
                  ("Access-Control-Allow-Headers", "Content-Type") ];
     relay_body := body |}.

(** The worker's environment variables; [None] is an unset variable. *)
Record Env := mkEnv {
  TG_BOT_TOKEN : option string;
  TG_CHAT_ID : option string;
  FEISHU_WEBHOOK : option string
}.

(** ToBoolean of an environment variable. *)
Definition configured (v : option string) : bool :=
  match v with
  | Some s => negb (String.eqb s "")
  | None => false
  end.

Definition text_of (v : option string) : string :=
  match v with
  | Some s => s
  | None => "undefined"
  end.

(** An outbound [fetch(url, { method, headers, body })]. *)
Record Outbound := mkOutbound {
  out_url : string;
  out_method : string;
  out_headers : list (string * string);
  out_body : string
}.

(** What the provider does with an outbound request: it answers, with
    a status that is [ok] or not, the fetch fails, or it never
    settles. *)
Inductive UpstreamResult :=
| Answers (ok : bool)
| Fails
| Silent.

Definition Upstream : Type := Outbound -> UpstreamResult.

(** How the handler ends. *)
Inductive Outcome :=
| Responded (r : RelayResponse)
| Thrown
| Unsettled.

(** *** The handler *)

(** The template literal of the message: its four substitutions are
    converted to text in order, and the first that throws ends the
    evaluation; [None] is that [TypeError]. *)
Definition message (name url logo desc : value) : option string :=
  name_text ← value_toString name;
  url_text ← value_toString url;
  logo_text ← value_toString (or_else logo (JStr "无"));
  desc_text ← value_toString (or_else desc (JStr "无"));
  Some ("【友链申请】" +:+ lf +:+ "站点名: " +:+ name_text +:+ lf +:+
        "链接: " +:+ url_text +:+ lf +:+
        "Logo: " +:+ logo_text +:+ lf +:+
        "描述: " +:+ desc_text).

Definition telegram_request (tgToken tgChatId msg : string) : Outbound :=
  {| out_url := "https://api.telegram.org/bot" +:+ tgToken +:+ "/sendMessage";
     out_method := "POST";
     out_headers := [("Content-Type", "application/json")];
     out_body := stringify (JObj [("chat_id", JStr tgChatId);
                                  ("text", JStr msg)]) |}.

Definition feishu_request (feishuWebhook msg : string) : Outbound :=
  {| out_url := feishuWebhook;
     out_method := "POST";
     out_headers := [("Content-Type", "application/json")];
     out_body := stringify (JObj [("msg_type", JStr "text");
                                  ("content", JObj [("text", JStr msg)])]) |}.

(** The result mapping after the provider call; the call is the one
    outbound request of the run. *)
Definition push (upstream : Upstream) (out : Outbound)
    : list Outbound * Outcome :=
  match upstream out with
  | Answers true =>
      ([out], Responded (corsResponse
                           (Some (stringify (JObj [("ok", JBool true)]))) 200))
  | Answers false => ([out], Responded (corsResponse (Some "推送失败") 500))
  | Fails => ([out], Thrown)
  | Silent => ([out], Unsettled)
  end.

(** [fetch(request, env, ctx)]: the outbound requests issued, in
    order, and how the handler ends. *)
Definition fetch (upstream : Upstream) (request : RelayRequest) (env : Env)
    : list Outbound * Outcome :=
  if String.eqb (relay_method request) "OPTIONS" then
    ([], Responded (corsResponse None 204))
  else if negb (String.eqb (relay_method request) "POST") then
    ([], Responded (corsResponse (Some "Method Not Allowed") 405))
  else
    match json_body request with
    | None => ([], Responded (corsResponse (Some "Invalid JSON") 400))
    | Some JNull => ([], Thrown)   (* destructuring null: TypeError *)
    | Some data =>
        let name := field "name" data in
        let url := field "url" data in
        let logo := field "logo" data in
        let desc := field "desc" data in
        let pushType := field "pushType" data in
        if negb (truthy name) || negb (truthy url) || negb (truthy pushType)
        then ([], Responded (corsResponse (Some "Missing required fields") 400))
        else
          match message name url logo desc with
          | None => ([], Thrown)   (* the template literal: TypeError *)
          | Some msg =>
              match pushType with
              | Some (JStr "telegram") =>
                  let tgToken := TG_BOT_TOKEN env in
                  let tgChatId := TG_CHAT_ID env in
                  if negb (configured tgToken) || negb (configured tgChatId)
                  then ([], Responded
                              (corsResponse (Some "Telegram配置缺失") 500))
                  else push upstream
                         (telegram_request (text_of tgToken) (text_of tgChatId)
                                           msg)
              | Some (JStr "feishu") =>
                  let feishuWebhook := FEISHU_WEBHOOK env in
                  if negb (configured feishuWebhook)
                  then ([], Responded (corsResponse (Some "飞书配置缺失") 500))
                  else push upstream
                         (feishu_request (text_of feishuWebhook) msg)
              | _ =>
                  ([], Responded (corsResponse (Some "不支持的推送方式") 400))
              end
          end
    end.

End Relay.


(** ** Sample inputs *)

Module Samples.
Import ServiceWorker.

Definition site : string := "https://deer.example".

Definition page_200 : Response := mkResponse 200 [] "<html>home</html>".
Definition quote_200 : Response := mkResponse 200 [] "{}".

(** A network that fails every fetch at once. *)
Definition offline : Network := fun _ => Rejects 0.

(** A network that answers every fetch in 20 ms with status 200. *)
Definition online : Network := fun u => Responds 20 (mkResponse 200 [] u).

(** A network that answers only after 5 seconds. *)
Definition slow : Network := fun u => Responds 5000 (mkResponse 200 [] u).

(** A page of a browser extension, as a navigation. *)
Definition extension_page : Request :=
  mkRequest "chrome-extension://abcdefgh/index.html" "GET" "document" [].

(** A directory page of another site, and a manifest of another site. *)
Definition foreign_blog : Request :=
  mkRequest "https://other.example/blog/" "GET" "document" [].
Definition foreign_manifest : Request :=
  mkRequest "https://other.example/app/manifest.json" "GET" "manifest" [].

(** The quote API, and an image of the site. *)
Definition quote_request : Request :=
  mkRequest "https://v1.hitokoto.cn/" "GET" "" [].

(** An article of the site, once as a navigation and once as a script's
    fetch. *)
Definition article_visit : Request :=
  mkRequest "https://deer.example/posts/1" "GET" "document" [].
Definition article_fetch : Request :=
  mkRequest "https://deer.example/posts/1" "GET" "" [].

(** A registry in which a generation other than the API one holds the
    quote API's URL. *)
Definition legacy_registry : CacheStorage :=
  [ ("deer-homepage-v1", [ mkEntry "https://v1.hitokoto.cn/" [] quote_200 ]);
    (API_CACHE, []) ].

(** The registry after the article was visited once, online, from an
    empty registry. *)
Definition visited_registry : CacheStorage :=
  run site [FetchEvent online article_visit] [].

End Samples.

Module RelaySamples.
Import JsString Relay.

(** The application of the specification's scenarios. *)
Definition blog_application (pushType : string) : json :=
  JObj [ ("name", JStr "Blog");
         ("url", JStr "https://x.example");
         ("pushType", JStr pushType) ].

(** The same application with a logo that is an object with a member
    of its own called [toString]. *)
Definition odd_logo_application (pushType : string) : json :=
  JObj [ ("name", JStr "Blog");
         ("url", JStr "https://x.example");
         ("logo", JObj [("toString", JNum 0)]);
         ("pushType", JStr pushType) ].

(** The message that the handler builds for [blog_application]. *)
Definition blog_message : string :=
  "【友链申请】" +:+ lf +:+ "站点名: Blog" +:+ lf +:+
  "链接: https://x.example" +:+ lf +:+ "Logo: 无" +:+ lf +:+ "描述: 无".

Definition telegram_env : Env :=
  {| TG_BOT_TOKEN := Some "123:abc";
     TG_CHAT_ID := Some "42";
     FEISHU_WEBHOOK := None |}.

(** A provider that accepts every message. *)
Definition accepting : Upstream := fun _ => Answers true.

End RelaySamples.

(** ** The worker's message channel (sw.js) *)

Module SwMessages.
Import JsString ServiceWorker.

(** The status object: the own properties of the object that starts
    as [{}], as a finite map from property name to value.  The order
    in which the properties are enumerated is not part of the model. *)
Definition Status : Type := gmap string nat.

(** [status[cacheName] = n]: an assignment to a property of an object
    literal.  It sets the own property of that name, except for the
    name [__proto__], which is the accessor of [Object.prototype]: its
    setter ignores a number and no property is created. *)
Definition set_count (name : string) (n : nat) (status : Status) : Status :=
  if String.eqb name "__proto__" then status else <[name := n]> status.

(** One turn of the loop of [getCacheStatus]: the cache is opened, and
    the number of its keys, one for each stored pair, recorded. *)
Definition count_cache (acc : CacheStorage * Status)
    (cacheName : string) : CacheStorage * Status :=
  let opened := caches_open cacheName acc.1 in
  (opened, set_count cacheName (length (cache_of cacheName opened)) acc.2).

(** [getCacheStatus()]: the registry it leaves and the status object. *)
Definition getCacheStatus (cs : CacheStorage) : CacheStorage * Status :=
  let cacheNames := caches_keys cs in
  foldl count_cache (cs, ∅) cacheNames.

(** What a message event does: whether [self.skipWaiting()] was
    called, the status posted on the first port if any, and the
    registry. *)
Record MessageResult := mkMessageResult {
  message_skipWaiting : bool;
  message_posted : option Status;
  message_caches : CacheStorage
}.

(** [event.data && event.data.type === type]. *)
Definition has_type (data : Relay.value) (type : string) : bool :=
  Relay.truthy data &&
  match data with
  | Some j =>
      match Relay.field "type" j with
      | Some (Relay.JStr t) => String.eqb t type
      | _ => false
      end
  | None => false
  end.

(** The message listener.  [has_port]: the message came with a port to
    answer on; without one the answer is lost. *)
Definition onMessage (data : Relay.value) (has_port : bool)
    (cs : CacheStorage) : MessageResult :=
  let skip := has_type data "SKIP_WAITING" in
  if has_type data "GET_CACHE_STATUS" then
    let result := getCacheStatus cs in
    mkMessageResult skip (if has_port then Some result.2 else None) result.1
  else
    mkMessageResult skip None cs.

End SwMessages.

(** ** The page's service worker manager (api.js) *)

Module Page.
Import JsString ServiceWorker.

(** A [ServiceWorkerRegistration] as the manager reads it: its scope
    and whether each of its three worker slots holds a worker. *)
Record Registration := mkRegistration {
  scope : string;
  installing : bool;
  waiting : bool;
  active : bool
}.

(** The fields of a [ServiceWorkerManager]. *)
Record Manager := mkManager {
  registration : option Registration;
  updateAvailable : bool
}.

(** What the manager does to the page: the number of [.update-prompt]
    elements in the document, the notifications shown, the messages
    posted to the waiting worker, and the reloads asked for. *)
Record Document := mkDocument {
  prompts : nat;
  notifications : list (string * string * N);
  posted : list string;
  reloads : nat
}.

Definition new_manager : Manager := mkManager None false.
Definition blank_document : Document := mkDocument 0 [] [] 0.

Definition _createUpdateButton (doc : Document) : Document :=
  if (0 <? prompts doc)%nat then doc
  else mkDocument (S (prompts doc)) (notifications doc) (posted doc)
                  (reloads doc).

(** The notification is shown once the UI module is imported, which
    is taken to succeed. *)
Definition _showUpdatePrompt (doc : Document) : Document :=
  let doc' := _createUpdateButton doc in
  mkDocument (prompts doc')
    (notifications doc'
       ++ [("发现新版本！点击刷新页面以获取最新功能。", "info", 10000%N)])%list
    (posted doc') (reloads doc').

(** [register()].  [supported]: the browser has service workers;
    [outcome]: the registration that [navigator.serviceWorker.register]
    resolves with, [None] when it rejects. *)
Definition register (supported : bool) (outcome : option Registration)
    (m : Manager) (doc : Document) : Manager * Document * bool :=
  if negb supported then (m, doc, false)
  else
    match outcome with
    | None => (m, doc, false)
    | Some reg =>
        let m' := mkManager (Some reg) (updateAvailable m) in
        let doc' := if waiting reg then _showUpdatePrompt doc else doc in
        (m', doc', true)
    end.

(** The [statechange] listener on a newly found worker. *)
Definition onStateChange (state : string) (controlled : bool)
    (m : Manager) (doc : Document) : Manager * Document :=
  if String.eqb state "installed" && controlled
  then (mkManager (registration m) true, _showUpdatePrompt doc)
  else (m, doc).

(** The [controllerchange] listener. *)
Definition onControllerChange (doc : Document) : Document :=
  mkDocument (prompts doc) (notifications doc) (posted doc) (S (reloads doc)).

Definition activateUpdate (m : Manager) (doc : Document) : Document :=
  match registration m with
  | Some reg =>
      if waiting reg
      then mkDocument (prompts doc) (notifications doc)
                      (posted doc ++ ["SKIP_WAITING"])%list (reloads doc)
      else doc
  | None => doc
  end.

(** A click on the dismiss button of a prompt: that prompt is removed
    from the document. *)
Definition dismiss (doc : Document) : Document :=
  mkDocument (pred (prompts doc)) (notifications doc) (posted doc)
             (reloads doc).

(** [clearAllCaches()]. *)
Definition clearAllCaches (cs : CacheStorage) : CacheStorage * bool :=
  let cacheNames := caches_keys cs in
  (foldl (fun acc cacheName => caches_delete cacheName acc) cs cacheNames,
   true).

(** What the page can do and what can happen to it. *)
Inductive PageEvent :=
| Register (supported : bool) (outcome : option Registration)
| StateChange (state : string) (controlled : bool)
| ControllerChange
| ClickUpdate
| ClickDismiss
| WorkerSlots (reg : Registration).

Definition page_step (s : Manager * Document) (ev : PageEvent)
    : Manager * Document :=
  match ev with
  | Register supported outcome => (register supported outcome s.1 s.2).1
  | StateChange state controlled => onStateChange state controlled s.1 s.2
  | ControllerChange => (s.1, onControllerChange s.2)
  | ClickUpdate => (s.1, activateUpdate s.1 s.2)
  | ClickDismiss =>
      if (0 <? prompts s.2)%nat then (s.1, dismiss s.2) else s
  | WorkerSlots reg =>
      match registration s.1 with
      | Some _ => (mkManager (Some reg) (updateAvailable s.1), s.2)
      | None => s
      end
  end.

Definition page_run (events : list PageEvent) (s : Manager * Document)
    : Manager * Document :=
  foldl page_step s events.

End Page.
(** ** How the relay can end *)

Module RelayShape.
Import JsString Relay.

(** [v === s] for a string [s]. *)
Definition is_string (v : value) (s : string) : bool :=
  match v with
  | Some (JStr t) => String.eqb t s
  | _ => false
  end.

(** The ways a run of the relay's [fetch] ends: it answers before any
    provider is called, with a status other than 200; it throws on a
    body that is the JSON value [null]; it throws on a body whose
    fields cannot be converted to the text of the message; or it calls
    one provider, the one its environment configures, and maps the
    provider's result. *)
Inductive Handled (upstream : Upstream) (request : RelayRequest) (env : Env)
    : list Outbound * Outcome -> Prop :=
| Refused body status :
    status <> 200%nat ->
    Handled upstream request env ([], Responded (corsResponse body status))
| Crashed :
    relay_method request = "POST" ->
    json_body request = Some JNull ->
    Handled upstream request env ([], Thrown)
| Unprintable data :
    relay_method request = "POST" ->
    json_body request = Some data ->
    truthy (field "name" data) && truthy (field "url" data)
      && truthy (field "pushType" data) = true ->
    message (field "name" data) (field "url" data)
            (field "logo" data) (field "desc" data) = None ->
    Handled upstream request env ([], Thrown)
| PushedTelegram msg :
    configured (TG_BOT_TOKEN env) = true ->
    configured (TG_CHAT_ID env) = true ->
    Handled upstream request env
      (push upstream (telegram_request (text_of (TG_BOT_TOKEN env))
                                       (text_of (TG_CHAT_ID env)) msg))
| PushedFeishu msg :
    configured (FEISHU_WEBHOOK env) = true ->
    Handled upstream request env
      (push upstream (feishu_request (text_of (FEISHU_WEBHOOK env)) msg)).

End RelayShape.

Module MoreSamples.
Import Relay.

Definition feishu_env : Env :=
  {| TG_BOT_TOKEN := None;
     TG_CHAT_ID := None;
     FEISHU_WEBHOOK := Some "https://open.feishu.cn/hook/abc" |}.


(** A provider that cannot be reached. *)
Definition unreachable : Upstream := fun _ => Fails.

End MoreSamples.
(** ** The quote widget's API manager (api.js) *)

Module Api.
Import JsString Relay.

(** The object [getHitokoto] returns.  [text] and [from] are the
    JavaScript values the or-chains select; [timestamp] is the ISO
    string the platform gave. *)
Record Hitokoto := mkHitokoto {
  text : value;
  from : value;
  success : bool;
  isBackup : bool;
  isFallback : bool;
  timestamp : string
}.

(** The fields of an [APIManager].  Keys are visited in no particular
    order, which no operation below depends on. *)
Record ApiState := mkApiState {
  cache : gmap string Hitokoto;
  retryCount : gmap string nat
}.

(** How a call to a quote API ends: a response, successful or not,
    whose body parses as JSON or does not; or a rejected or aborted
    fetch. *)
Inductive ApiAnswer :=
| Answered (ok : bool) (parsed : option json)
| Failed.

(** [a || b] on values. *)
Definition or_value (a b : value) : value := if truthy a then a else b.

Definition fallbackTexts : list string :=
  [ "哪有什么岁月静好，不过是有人在替你负重前行。";
    "生活不止眼前的苟且，还有诗和远方的田野。";
    "愿你走出半生，归来仍是少年。";
    "山川是不卷收的文章，日月为你掌灯伴读。";
    "纵然万劫不复，纵然相思入骨，我也待你眉眼如初，岁月如故。";
    "世界上最遥远的距离，不是生与死，而是我就站在你面前，你却不知道我爱你。";
    "我们听过无数的道理，却仍旧过不好这一生。";
    "有些人，一旦错过就不再。";
    "时间会带走一切，长年累月会把你的名字、外貌、性格、命运都改变。";
    "每个人都有一个死角，自己走不出来，别人也闯不进去。";
    "青春是一本太仓促的书，我们含着眼泪，一读再读。";
    "你若安好，便是晴天。";
    "时光荏苒，愿你我都能成为更好的自己。";
    "路漫漫其修远兮，吾将上下而求索。";
    "落红不是无情物，化作春泥更护花。" ].

(** [_getFallbackHitokoto()].  [now] is [Date.now()] and [k] is
    [Math.floor(Math.random() * 1000)]; an index outside the array reads
    [undefined]. *)
Definition _getFallbackHitokoto (now k : Z) (stamp : string) : Hitokoto :=
  let randomIndex := Z.rem (now + k) (Z.of_nat (length fallbackTexts)) in
  let randomText :=
    if (randomIndex <? 0)%Z then None
    else JStr <$> (fallbackTexts !! Z.to_nat randomIndex) in
  {| text := randomText;
     from := Some (JStr "备用语录");
     success := false;
     isBackup := false;
     isFallback := true;
     timestamp := stamp |}.

(** [_cleanupHitokotoCache()]. *)
Definition _cleanupHitokotoCache (cache : gmap string Hitokoto)
    : gmap string Hitokoto :=
  let keysToDelete :=
    List.filter (fun key => startsWith key "hitokoto_")
                (map_to_list cache).*1 in
  foldl (fun c key => delete key c) cache keysToDelete.

(** [getHitokoto()].  [now] is the [Date.now()] of the cache key,
    [primary] and [backup] what the two APIs do (the primary's deadline
    counted in), [fallback_now] and [k] the clock and the random draw of
    the fallback. *)
Definition getHitokoto (now : Z) (stamp : string)
    (primary backup : ApiAnswer) (fallback_now k : Z) (s : ApiState)
    : ApiState * Hitokoto :=
  let cacheKey := "hitokoto_" +:+ number_toString now in
  let from_backup :=
    match backup with
    | Answered true (Some JNull) => (s, _getFallbackHitokoto fallback_now k stamp)
    | Answered true (Some backupData) =>
        let data :=
          {| text := or_else (or_value (field "content" backupData)
                                       (field "text" backupData))
                             (JStr "获取一言失败");
             from := Some (JStr "情话API");
             success := true;
             isBackup := true;
             isFallback := false;
             timestamp := stamp |} in
        (mkApiState (<[cacheKey := data]> (cache s)) (retryCount s), data)
    | _ => (s, _getFallbackHitokoto fallback_now k stamp)
    end in
  match primary with
  | Answered true (Some JNull) => from_backup
  | Answered true (Some jsonData) =>
      let data :=
        {| text := or_else (or_value (field "hitokoto" jsonData)
                                     (field "text" jsonData))
                           (JStr "获取一言失败");
           from := or_else (or_value (field "from" jsonData)
                                     (field "from_who" jsonData))
                           (JStr "一言");
           success := true;
           isBackup := false;
           isFallback := false;
           timestamp := stamp |} in
      (mkApiState (<[cacheKey := data]> (_cleanupHitokotoCache (cache s)))
                  (delete "hitokoto" (retryCount s)),
       data)
  | _ => from_backup
  end.

End Api.

(** ** Bounded logs: analytics (analytics.js) and error handling
    (error-handler.js) *)

Module Telemetry.

(** [l.slice(-n)]: the last [n] elements, all of them when there are
    fewer. *)
Definition slice_last {A} (n : nat) (l : list A) : list A :=
  drop (length l - n) l.

(** The value under a [localStorage] key holding a log: nothing, an
    array, or something that is no array of the expected kind (text
    that does not parse, or parses to another value). *)
Inductive Stored (A : Type) :=
| Absent
| Entries (l : list A)
| Unusable.
Arguments Absent {A}.
Arguments Entries {A} l.
Arguments Unusable {A}.

Section Logs.

(** A logged record, and whether [localStorage.setItem] accepts a log
    (it throws when the quota is exceeded). *)
Variable Record_ : Type.
Variable fits : list Record_ -> bool.

(** The body shared by [_storeEvent] (limit 100) and [_reportError]
    (limit 20): read, push, drop the oldest beyond the limit, write;
    any exception leaves the storage as it was. *)
Definition store_capped (limit : nat) (stored : Stored Record_)
    (x : Record_) : Stored Record_ :=
  let write (events : list Record_) :=
    let trimmed :=
      if (limit <? length events)%nat
      then drop (length events - limit) events   (* splice(0, length - limit) *)
      else events in
    if fits trimmed then Entries trimmed else stored in
  match stored with
  | Absent => write [x]
  | Entries l => write (l ++ [x])%list
  | Unusable => stored
  end.

Definition _storeEvent : Stored Record_ -> Record_ -> Stored Record_ :=
  store_capped 100.

Definition _reportError : Stored Record_ -> Record_ -> Stored Record_ :=
  store_capped 20.

(** The fields of an [AnalyticsManager] that its tracking methods
    write, with the log kept under [analytics_events]. *)
Record Analytics := mkAnalytics {
  interactions : list Record_;
  errors : list Record_;
  events : Stored Record_
}.

(** The event object that [trackEvent] builds from a name and data;
    here from the record that is tracked. *)
Variable event_of : Record_ -> Record_.

(** [trackEvent]: the event is stored; [_sendEvent] does nothing. *)
Definition trackEvent (a : Analytics) (event : Record_) : Analytics :=
  mkAnalytics (interactions a) (errors a) (_storeEvent (events a) event).

Definition trackInteraction (a : Analytics) (x : Record_) : Analytics :=
  let pushed := (interactions a ++ [x])%list in
  let kept := if (100 <? length pushed)%nat then slice_last 50 pushed
              else pushed in
  trackEvent (mkAnalytics kept (errors a) (events a)) (event_of x).

Definition trackError (a : Analytics) (error : Record_) : Analytics :=
  let pushed := (errors a ++ [error])%list in
  let kept := if (20 <? length pushed)%nat then slice_last 10 pushed
              else pushed in
  trackEvent (mkAnalytics (interactions a) kept (events a)) (event_of error).

(** [maxErrors] and [maxRetries] of the error handler. *)
Definition maxErrors : nat := 10.
Definition maxRetries : nat := 3.

(** The [errorQueue] after [_addToErrorQueue]: push, then [shift] once
    when the queue is longer than [maxErrors].  [error] is the entry as
    pushed, with its [id] and [handled] fields. *)
Definition _addToErrorQueue (errorQueue : list Record_) (error : Record_)
    : list Record_ :=
  let pushed := (errorQueue ++ [error])%list in
  if (maxErrors <? length pushed)%nat then tail pushed else pushed.

(** The [retryAttempts] map after [_attemptRecovery] on an error of key
    [errorKey], and whether the branch that attempts a recovery was
    taken; what the recovery itself does is left out. *)
Definition _attemptRecovery (retryAttempts : gmap string nat)
    (errorKey : string) : gmap string nat * bool :=
  let attempts := default 0%nat (retryAttempts !! errorKey) in
  if (attempts <? maxRetries)%nat
  then (<[errorKey := S attempts]> retryAttempts, true)
  else (delete errorKey retryAttempts, false).

End Logs.

End Telemetry.
(** ** The application's resource loading (app.js) *)

Module App.
Import Page.






End App.

(** ** Properties of the service worker *)

Module SwFacts.
Import JsString ServiceWorker Samples.

(** *** Classification *)

Lemma first_match_cons (rule : Rule) rules otherwise request :
  first_match (rule :: rules) otherwise request =
  if rule.1 request then rule.2 else first_match rules otherwise request.
Proof. unfold first_match. simpl. by destruct (rule.1 request). Qed.

(** C1, as amended: the fetch listener is the rule list [classify]
    served by [serve].  Rules are tried in order and the first match
    wins: a method other than GET bypasses the worker; a URL of the
    [chrome-extension:] scheme bypasses it too; a URL containing an API
    prefix is served network-first with a 3000 ms deadline against the
    api generation; a URL containing a CDN prefix cache-first against the
    dynamic generation; a URL ending in a manifest path cache-first
    against the static generation; a document network-first with cache
    fallback against the static generation; anything else cache-first
    against the dynamic generation. *)
Theorem onFetch_is_classify origin net request cs :
  onFetch origin net request cs = serve origin (classify request) net request cs.
Proof.
  unfold onFetch, classify, handleRequest.
  rewrite first_match_cons; simpl.
  destruct (String.eqb (method request) "GET"); simpl; [|reflexivity].
  rewrite first_match_cons; simpl.
  destruct (String.eqb (protocol (url request)) "chrome-extension:");
    simpl; [reflexivity|].
  unfold tier_rules.
  repeat (rewrite first_match_cons; simpl).
  destruct (isAPIRequest (url request)); [reflexivity|].
  destruct (isCDNRequest (url request)); [reflexivity|].
  destruct (isStaticAsset (url request)); [reflexivity|].
  destruct (String.eqb (destination request) "document"); reflexivity.
Qed.

(** C1, as the specification words it, fails on a GET request for an
    extension's page: the six rules serve it cache-first from the static
    generation, the listener leaves it to the browser. *)
Lemma spec_classify_extension_page :
  method extension_page = "GET" /\
  spec_classify extension_page = Classified StaticCacheFirst /\
  onFetch site offline extension_page [] = None /\
  onFetch site offline extension_page []
    <> serve site (spec_classify extension_page) offline extension_page [].
Proof. repeat split; try reflexivity. vm_compute. discriminate. Qed.

(** C10: the static test is a suffix test on the whole URL, so GET
    requests whose path is no manifest path, and whose URL has no API or
    CDN prefix in it, are served from the static tier; the manifest of
    another site, in a directory of its own, is one. *)
Theorem static_tier_over_matches :
  exists request,
    method request = "GET" /\
    (url request ∉ STATIC_ASSETS) /\
    (pathname (url request) ∉ STATIC_ASSETS) /\
    isAPIRequest (url request) = false /\
    isCDNRequest (url request) = false /\
    isStaticAsset (url request) = true /\
    classify request = Classified StaticCacheFirst /\
    forall origin net cs,
      handleRequest origin net request cs =
      or_offline origin request
        (cacheFirstWithNetworkFallback net request STATIC_CACHE cs).
Proof.
  exists foreign_manifest.
  repeat split; try reflexivity.
  - apply (bool_decide_unpack _). vm_compute. reflexivity.
  - apply (bool_decide_unpack _). vm_compute. reflexivity.
Qed.

(** A URL ending in [/] is a static asset to the worker, whatever its
    origin and path. *)
Lemma endsWith_slash_static u :
  endsWith u "/" = true -> isStaticAsset u = true.
Proof. intros H. unfold isStaticAsset, some, STATIC_ASSETS. simpl. by rewrite H. Qed.

Example foreign_blog_static :
  (pathname (url foreign_blog) ∉ STATIC_ASSETS) /\
  classify foreign_blog = Classified StaticCacheFirst.
Proof.
  split; [|reflexivity].
  apply (bool_decide_unpack _). vm_compute. reflexivity.
Qed.

(** *** Activation *)

Lemma caches_keys_delete name cs n :
  n ∈ caches_keys (caches_delete name cs) <-> n ∈ caches_keys cs /\ n <> name.
Proof.
  unfold caches_keys, caches_delete.
  induction cs as [|[k c] cs IH]; simpl.
  - split; [intros H; inversion H | intros [H _]; inversion H].
  - destruct (String.eqb_spec k name) as [->|Hne]; simpl.
    + rewrite IH, elem_of_cons. intuition congruence.
    + rewrite !elem_of_cons, IH. intuition congruence.
Qed.

(** A sweep over names that are all current deletes nothing. *)
Lemma sweep_current names acc :
  Forall (fun n => is_current n = true) names ->
  foldl delete_if_stale acc names = acc.
Proof.
  intros H. revert acc.
  induction H as [|n names Hn _ IH]; intros acc; simpl; [reflexivity|].
  unfold delete_if_stale at 2. rewrite Hn. simpl. apply IH.
Qed.

(** What a sweep over [names] leaves is part of the registry, and holds
    none of the swept names that is stale. *)
Lemma sweep_survivors names acc n :
  n ∈ caches_keys (foldl delete_if_stale acc names).2 ->
  n ∈ caches_keys acc.2 /\ (n ∈ names -> is_current n = true).
Proof.
  revert acc.
  induction names as [|a names IH]; intros acc Hn; simpl in *.
  - split; [assumption | intros H; inversion H].
  - apply IH in Hn as [Hin Hcur].
    unfold delete_if_stale in Hin, Hcur.
    destruct (is_current a) eqn:Ha; simpl in *.
    + split; [assumption|]. rewrite elem_of_cons. intros [->|H]; auto.
    + apply caches_keys_delete in Hin as [Hin Hne].
      split; [assumption|]. rewrite elem_of_cons. intros [->|H]; [done|auto].
Qed.

Lemma activate_leaves_current cs :
  Forall (fun n => is_current n = true)
         (caches_keys (activate_caches (onActivate cs))).
Proof.
  apply Forall_forall. intros n Hn. simpl in Hn.
  apply sweep_survivors in Hn as [Hin Hcur]. auto.
Qed.

(** C7: activation is idempotent.  A second activation over the
    registry the first one left deletes nothing, leaves the registry as
    it is, and claims the clients again; there is no failing path. *)
Theorem activate_idempotent cs :
  let first := onActivate cs in
  let second := onActivate (activate_caches first) in
  deleted second = [] /\
  activate_caches second = activate_caches first /\
  claimed second = true.
Proof.
  intros first second. subst first second.
  pose proof (activate_leaves_current cs) as Hcurrent.
  unfold onActivate in *. simpl in *.
  rewrite (sweep_current _ _ Hcurrent). simpl. auto.
Qed.

(** Activation keeps exactly the current generations, in order. *)
Lemma activate_deletes_stale cs n :
  n ∈ caches_keys (activate_caches (onActivate cs)) -> is_current n = true.
Proof.
  intros H. pose proof (activate_leaves_current cs) as Hall.
  rewrite Forall_forall in Hall. auto.
Qed.

(** *** What a write can add to the registry *)

Lemma writes_ok_refl cs : writes_ok cs cs.
Proof. intros name c e Hin He. right. eauto. Qed.

Lemma writes_ok_trans cs1 cs2 cs3 :
  writes_ok cs1 cs2 -> writes_ok cs2 cs3 -> writes_ok cs1 cs3.
Proof.
  intros H12 H23 name c e Hin He.
  destruct (H23 _ _ _ Hin He) as [Hok|(c2 & Hin2 & He2)]; [by left|].
  exact (H12 _ _ _ Hin2 He2).
Qed.

Lemma caches_open_entry g cs name c' e :
  (name, c') ∈ caches_open g cs -> e ∈ c' ->
  exists c, (name, c) ∈ cs /\ e ∈ c.
Proof.
  unfold caches_open. destruct (caches_has g cs); [eauto|].
  rewrite elem_of_app, list_elem_of_singleton.
  intros [Hin|Heq] He; [eauto|].
  inversion Heq; subst. inversion He.
Qed.

Lemma put_entry_entry request response c e :
  e ∈ put_entry request response c ->
  entry_response e = response \/ e ∈ c.
Proof.
  unfold put_entry. rewrite elem_of_app, list_elem_of_singleton.
  intros [Hin| ->]; [right | by left].
  apply list_elem_of_In in Hin. apply filter_In in Hin as [Hin _].
  by apply list_elem_of_In.
Qed.

Lemma put_in_entry g request response cs name c' e :
  (name, c') ∈ put_in g request response cs -> e ∈ c' ->
  entry_response e = response \/ exists c, (name, c) ∈ cs /\ e ∈ c.
Proof.
  induction cs as [|[n c] cs IH]; simpl; intros Hin He.
  - inversion Hin.
  - destruct (String.eqb n g).
    + apply elem_of_cons in Hin as [Heq|Hin].
      * inversion Heq; subst.
        destruct (put_entry_entry _ _ _ _ He) as [Hr|Hc]; [by left|].
        right. exists c. split; [apply list_elem_of_here | done].
      * right. exists c'. split; [by apply list_elem_of_further | done].
    + apply elem_of_cons in Hin as [Heq|Hin].
      * inversion Heq; subst. right. exists c.
        split; [apply list_elem_of_here | done].
      * destruct (IH Hin He) as [Hr|(c0 & Hin0 & He0)]; [by left|].
        right. exists c0. split; [by apply list_elem_of_further | done].
Qed.

Lemma caches_open_writes_ok g cs : writes_ok cs (caches_open g cs).
Proof.
  intros name c' e Hin He. right. eapply caches_open_entry; eauto.
Qed.

Lemma put_in_writes_ok g request response cs :
  ok response = true -> writes_ok cs (put_in g request response cs).
Proof.
  intros Hok name c' e Hin He.
  destruct (put_in_entry _ _ _ _ _ _ _ Hin He) as [->|H]; auto.
Qed.

Lemma cache_put_writes_ok g request response cs :
  ok response = true -> writes_ok cs (cache_put g request response cs).
Proof.
  intros Hok. unfold cache_put.
  destruct (put_refused request response).
  - apply caches_open_writes_ok.
  - eapply writes_ok_trans;
      [apply caches_open_writes_ok | by apply put_in_writes_ok].
Qed.

Lemma updateCacheInBackground_writes_ok net request g cs :
  writes_ok cs (updateCacheInBackground net request g cs).
Proof.
  unfold updateCacheInBackground.
  destruct (net_fetch net request) as [response| |]; try apply writes_ok_refl.
  destruct (ok response) eqn:Hok;
    [by apply cache_put_writes_ok | apply writes_ok_refl].
Qed.

Lemma networkFirstWithTimeout_writes_ok net request g timeout cs :
  writes_ok cs (networkFirstWithTimeout net request g timeout cs).1.
Proof.
  unfold networkFirstWithTimeout.
  destruct (fetch_with_deadline net request timeout) as [response|e|]; simpl.
  - destruct (ok response) eqn:Hok; simpl;
      [by apply cache_put_writes_ok | apply writes_ok_refl].
  - destruct (caches_match request cs); apply writes_ok_refl.
  - apply writes_ok_refl.
Qed.

Lemma cacheFirstWithNetworkFallback_writes_ok net request g cs :
  writes_ok cs (cacheFirstWithNetworkFallback net request g cs).1.
Proof.
  unfold cacheFirstWithNetworkFallback.
  destruct (caches_match request cs); simpl.
  - apply updateCacheInBackground_writes_ok.
  - destruct (net_fetch net request) as [response|e|]; simpl;
      try apply writes_ok_refl.
    destruct (ok response) eqn:Hok; simpl;
      [by apply cache_put_writes_ok | apply writes_ok_refl].
Qed.

Lemma networkFirstWithCacheFallback_writes_ok net request g cs :
  writes_ok cs (networkFirstWithCacheFallback net request g cs).1.
Proof.
  unfold networkFirstWithCacheFallback.
  destruct (net_fetch net request) as [response|e|]; simpl.
  - destruct (ok response) eqn:Hok; simpl;
      [by apply cache_put_writes_ok | apply writes_ok_refl].
  - destruct (caches_match request cs); apply writes_ok_refl.
  - apply writes_ok_refl.
Qed.

Lemma or_offline_caches origin request attempt :
  (or_offline origin request attempt).1 = attempt.1.
Proof. destruct attempt as [cs' [r|e|]]; reflexivity. Qed.

Lemma handleRequest_or_offline origin net request cs :
  exists tier,
    handleRequest origin net request cs =
    or_offline origin request (strategy_of tier net request cs).
Proof.
  unfold handleRequest.
  destruct (isAPIRequest (url request)); [by exists ApiNetworkFirst|].
  destruct (isCDNRequest (url request)); [by exists CdnCacheFirst|].
  destruct (isStaticAsset (url request)); [by exists StaticCacheFirst|].
  destruct (String.eqb (destination request) "document");
    [by exists DocumentNetworkFirst | by exists DynamicCacheFirst].
Qed.

Lemma strategy_of_writes_ok tier net request cs :
  writes_ok cs (strategy_of tier net request cs).1.
Proof.
  destruct tier; simpl;
    auto using networkFirstWithTimeout_writes_ok,
               cacheFirstWithNetworkFallback_writes_ok,
               networkFirstWithCacheFallback_writes_ok.
Qed.

Lemma handleRequest_writes_ok origin net request cs :
  writes_ok cs (handleRequest origin net request cs).1.
Proof.
  destruct (handleRequest_or_offline origin net request cs) as [tier ->].
  rewrite or_offline_caches. apply strategy_of_writes_ok.
Qed.

Lemma addAll_store_writes_ok net g urls cs :
  existsb (asset_fails net) urls = false ->
  writes_ok cs (foldl (store_asset net g) cs urls).
Proof.
  revert cs. induction urls as [|u urls IH]; intros cs H; simpl in *.
  - apply writes_ok_refl.
  - apply orb_false_iff in H as [Hu Hrest].
    eapply writes_ok_trans; [|apply IH; exact Hrest].
    unfold store_asset, asset_fails in *.
    destruct (net u) as [latency response| |]; try apply writes_ok_refl.
    apply put_in_writes_ok.
    apply orb_false_iff in Hu as [_ Hu].
    apply orb_false_iff in Hu as [Hu _].
    apply orb_false_iff in Hu as [Hu _].
    by apply negb_false_iff in Hu.
Qed.

Lemma addAll_writes_ok net g urls cs :
  writes_ok cs (addAll net g urls cs).1.
Proof.
  unfold addAll.
  destruct (existsb (asset_fails net) urls) eqn:Hfail; simpl;
    [apply writes_ok_refl|].
  destruct (existsb (asset_hangs net) urls); simpl; [apply writes_ok_refl|].
  destruct (has_duplicate _); simpl; [apply writes_ok_refl|].
  by apply addAll_store_writes_ok.
Qed.

Lemma onInstall_caches origin net cs :
  install_caches (onInstall origin net cs) =
  (addAll net STATIC_CACHE (map (resolve origin) STATIC_ASSETS)
          (caches_open STATIC_CACHE cs)).1.
Proof.
  unfold onInstall.
  by destruct (addAll _ _ _ _) as [cs' [[]|e|]].
Qed.

Lemma onInstall_writes_ok origin net cs :
  writes_ok cs (install_caches (onInstall origin net cs)).
Proof.
  rewrite onInstall_caches.
  eapply writes_ok_trans; [apply caches_open_writes_ok | apply addAll_writes_ok].
Qed.

Lemma caches_delete_writes_ok name cs : writes_ok cs (caches_delete name cs).
Proof.
  intros n c e Hin He. right. exists c. split; [|done].
  unfold caches_delete in Hin. apply list_elem_of_In in Hin.
  apply filter_In in Hin as [Hin _]. by apply list_elem_of_In.
Qed.

Lemma sweep_writes_ok names acc :
  writes_ok acc.2 (foldl delete_if_stale acc names).2.
Proof.
  revert acc. induction names as [|n names IH]; intros acc; simpl.
  - apply writes_ok_refl.
  - eapply writes_ok_trans; [|apply IH].
    unfold delete_if_stale. destruct (is_current n); simpl.
    + apply writes_ok_refl.
    + apply caches_delete_writes_ok.
Qed.

Lemma step_writes_ok origin cs ev : writes_ok cs (step origin cs ev).
Proof.
  destruct ev as [net| |net request]; simpl.
  - apply onInstall_writes_ok.
  - apply (sweep_writes_ok _ ([], cs)).
  - unfold onFetch.
    destruct (negb _); [apply writes_ok_refl|].
    destruct (String.eqb _ _); [apply writes_ok_refl|].
    pose proof (handleRequest_writes_ok origin net request cs) as H.
    by destruct (handleRequest origin net request cs).
Qed.

Lemma run_writes_ok origin events cs : writes_ok cs (run origin events cs).
Proof.
  unfold run. revert cs.
  induction events as [|ev events IH]; intros cs; simpl.
  - apply writes_ok_refl.
  - eapply writes_ok_trans; [apply step_writes_ok | apply IH].
Qed.

Lemma writes_ok_all_ok cs cs' : all_ok cs -> writes_ok cs cs' -> all_ok cs'.
Proof.
  unfold all_ok. rewrite !Forall_forall. intros Hcs Hw [name c'] Hin.
  simpl. apply Forall_forall. intros e He.
  destruct (Hw name c' e Hin He) as [Hok|(c & Hc & Hce)]; [done|].
  specialize (Hcs (name, c) Hc). simpl in Hcs.
  rewrite Forall_forall in Hcs. auto.
Qed.

(** C5: only successful responses are stored.  Over every sequence of
    install, activate and fetch events (background refreshes included),
    every entry that the events added to the registry has a successful
    status; and a registry that starts empty only ever
    holds successful responses. *)
Theorem only_ok_responses_stored origin events cs :
  writes_ok cs (run origin events cs) /\ all_ok (run origin events []).
Proof.
  split; [apply run_writes_ok|].
  eapply writes_ok_all_ok; [|apply run_writes_ok].
  unfold all_ok. constructor.
Qed.

(** The same, strategy by strategy and for the background refresh. *)
Lemma strategies_store_only_ok net request g timeout cs :
  writes_ok cs (networkFirstWithTimeout net request g timeout cs).1 /\
  writes_ok cs (cacheFirstWithNetworkFallback net request g cs).1 /\
  writes_ok cs (networkFirstWithCacheFallback net request g cs).1 /\
  writes_ok cs (updateCacheInBackground net request g cs).
Proof.
  auto using networkFirstWithTimeout_writes_ok,
             cacheFirstWithNetworkFallback_writes_ok,
             networkFirstWithCacheFallback_writes_ok,
             updateCacheInBackground_writes_ok.
Qed.

Lemma all_ok_preserved origin events cs :
  all_ok cs -> all_ok (run origin events cs).
Proof. intros H. eapply writes_ok_all_ok; [exact H | apply run_writes_ok]. Qed.

(** *** Cache lookup *)

Lemma caches_match_first_holder request cs name c r :
  first_holder request cs = Some (name, c) -> cache_match request c = Some r ->
  caches_match request cs = Some r.
Proof.
  unfold first_holder.
  induction cs as [|[n c0] cs IH]; simpl; intros Hfind Hr; [discriminate|].
  destruct (cache_match request c0) as [r0|] eqn:Hc0.
  - rewrite bool_decide_eq_true_2 in Hfind by eauto.
    inversion Hfind; subst. congruence.
  - rewrite bool_decide_eq_false_2 in Hfind by (intros [? ?]; discriminate).
    auto.
Qed.

Lemma caches_match_none_first_holder request cs :
  caches_match request cs = None <-> first_holder request cs = None.
Proof.
  unfold first_holder.
  induction cs as [|[n c0] cs IH]; simpl; [done|].
  destruct (cache_match request c0) as [r0|] eqn:Hc0.
  - rewrite bool_decide_eq_true_2 by eauto. split; discriminate.
  - rewrite bool_decide_eq_false_2 by (intros [? ?]; discriminate). exact IH.
Qed.

(** The lookup is by URL up to the fragment, and by the headers that
    the stored response's [Vary] names; a [put] replaces the pair that
    the request matches. *)
Example lookup_ignores_fragment :
  caches_match (mkRequest "https://deer.example/posts/1#top" "GET" "" [])
               [(STATIC_CACHE, [mkEntry "https://deer.example/posts/1" []
                                        page_200])]
  = Some page_200.
Proof. reflexivity. Qed.

Example lookup_honours_vary :
  let stored := mkResponse 200 [("Vary", "Accept-Language")] "bonjour" in
  let registry :=
    [(STATIC_CACHE, [mkEntry "https://deer.example/posts/1"
                             [("Accept-Language", "fr")] stored])] in
  caches_match (mkRequest "https://deer.example/posts/1" "GET" ""
                          [("accept-language", "fr")]) registry
  = Some stored /\
  caches_match (mkRequest "https://deer.example/posts/1" "GET" ""
                          [("Accept-Language", "en")]) registry
  = None.
Proof. split; reflexivity. Qed.

Example put_replaces_match :
  cache_put STATIC_CACHE
            (mkRequest "https://deer.example/posts/1#top" "GET" "" [])
            quote_200
            [(STATIC_CACHE, [mkEntry "https://deer.example/posts/1" []
                                     page_200])]
  = [(STATIC_CACHE, [mkEntry "https://deer.example/posts/1" [] quote_200])].
Proof. reflexivity. Qed.

Example put_refuses_partial :
  cache_put STATIC_CACHE article_fetch (mkResponse 206 [] "part") []
  = [(STATIC_CACHE, [])].
Proof. reflexivity. Qed.

Lemma deadline_missed net request timeout :
  in_time net request timeout = false ->
  exists e, fetch_with_deadline net request timeout = Threw e.
Proof.
  unfold in_time, fetch_with_deadline.
  destruct (net (url request)) as [latency response|latency|].
  - intros ->. eauto.
  - intros _. destruct (latency <? timeout)%nat; eauto.
  - eauto.
Qed.

(** A write to generation [g] leaves the content of every other
    generation as it was. *)
Lemma put_in_other g request response cs name :
  name <> g ->
  cache_of name (put_in g request response cs) = cache_of name cs.
Proof.
  intros Hne. induction cs as [|[n c] cs IH]; simpl; [done|].
  destruct (String.eqb_spec n g) as [->|Hng]; simpl.
  - destruct (String.eqb_spec g name) as [->|_]; [done|reflexivity].
  - by rewrite IH.
Qed.

Lemma cache_of_app_empty name g cs :
  cache_of name (cs ++ [(g, [])])%list = cache_of name cs.
Proof.
  induction cs as [|[n c] cs IH]; simpl.
  - by destruct (String.eqb g name).
  - by destruct (String.eqb n name).
Qed.

Lemma cache_of_caches_open name g cs :
  cache_of name (caches_open g cs) = cache_of name cs.
Proof.
  unfold caches_open. destruct (caches_has g cs); [done|].
  apply cache_of_app_empty.
Qed.

Lemma cache_put_other g request response cs name :
  name <> g ->
  cache_of name (cache_put g request response cs) = cache_of name cs.
Proof.
  intros Hne. unfold cache_put.
  destruct (put_refused request response);
    rewrite ?put_in_other by done; apply cache_of_caches_open.
Qed.

Lemma strategies_write_given_generation net request g timeout cs name :
  name <> g ->
  cache_of name (networkFirstWithTimeout net request g timeout cs).1
    = cache_of name cs /\
  cache_of name (networkFirstWithCacheFallback net request g cs).1
    = cache_of name cs /\
  cache_of name (cacheFirstWithNetworkFallback net request g cs).1
    = cache_of name cs.
Proof.
  intros Hne.
  unfold networkFirstWithTimeout, networkFirstWithCacheFallback,
    cacheFirstWithNetworkFallback, updateCacheInBackground.
  destruct (fetch_with_deadline net request timeout) as [r1|e1|];
    destruct (net_fetch net request) as [r2|e2|];
    destruct (caches_match request cs);
    repeat match goal with
           | |- context [if ok ?r then _ else _] => destruct (ok r)
           end;
    simpl; rewrite ?cache_put_other by done; auto.
Qed.

(** C2, as amended: the cache lookup of every strategy is
    [caches.match] on the whole registry.  It searches all generations
    in creation order and answers with the response of the first
    generation that holds a pair the request matches (the same URL up
    to the fragment, and the same values on the headers that the stored
    response's [Vary] names), whichever generation the strategy was
    given.  The generation given is only where a fresh response is
    written: the strategies leave the content of every other generation
    as it was. *)
Theorem lookup_answers_from_first_holder
    net request cacheName cs name c cached :
  first_holder request cs = Some (name, c) ->
  cache_match request c = Some cached ->
  (forall timeout, in_time net request timeout = false ->
     networkFirstWithTimeout net request cacheName timeout cs
     = (cs, Returned cached)) /\
  (forall e, net_fetch net request = Threw e ->
     networkFirstWithCacheFallback net request cacheName cs
     = (cs, Returned cached)) /\
  (cacheFirstWithNetworkFallback net request cacheName cs).2
  = Returned cached /\
  (forall other timeout, other <> cacheName ->
     cache_of other (networkFirstWithTimeout net request cacheName timeout cs).1
       = cache_of other cs /\
     cache_of other (networkFirstWithCacheFallback net request cacheName cs).1
       = cache_of other cs /\
     cache_of other (cacheFirstWithNetworkFallback net request cacheName cs).1
       = cache_of other cs).
Proof.
  intros Hholder Hc.
  pose proof (caches_match_first_holder _ _ _ _ _ Hholder Hc) as Hmatch.
  split; [|split; [|split]].
  - intros timeout Hlate.
    destruct (deadline_missed _ _ _ Hlate) as [e He].
    unfold networkFirstWithTimeout. by rewrite He, Hmatch.
  - intros e He. unfold networkFirstWithCacheFallback. by rewrite He, Hmatch.
  - unfold cacheFirstWithNetworkFallback. by rewrite Hmatch.
  - intros other timeout Hne. by apply strategies_write_given_generation.
Qed.

Lemma lookup_answers_from_first_holder_witness :
  first_holder quote_request legacy_registry
    = Some ("deer-homepage-v1",
            [mkEntry "https://v1.hitokoto.cn/" [] quote_200]) /\
  networkFirstWithTimeout offline quote_request API_CACHE 3000 legacy_registry
    = (legacy_registry, Returned quote_200).
Proof.
  split; [reflexivity|].
  apply (lookup_answers_from_first_holder offline quote_request API_CACHE
           legacy_registry "deer-homepage-v1"
           [mkEntry "https://v1.hitokoto.cn/" [] quote_200] quote_200);
    reflexivity.
Defined.

(** C2, as the specification words it, fails.  An article visited as a
    document is stored in the static generation; when a script then
    fetches the same URL, the cache-first strategy is given the dynamic
    generation, which has no entry, and answers with the static
    generation's.  Likewise a network-first API request that falls back
    to cache is answered from another generation when that one holds the
    URL. *)
Lemma lookup_crosses_generations :
  (generation_match DYNAMIC_CACHE article_fetch visited_registry = None /\
   generation_match STATIC_CACHE article_fetch visited_registry
     = Some (mkResponse 200 [] (url article_fetch)) /\
   (cacheFirstWithNetworkFallback offline article_fetch DYNAMIC_CACHE
      visited_registry).2
     = Returned (mkResponse 200 [] (url article_fetch)) /\
   handleRequest site offline article_fetch visited_registry
     = (visited_registry, Returned (mkResponse 200 [] (url article_fetch)))) /\
  (generation_match API_CACHE quote_request legacy_registry = None /\
   generation_match "deer-homepage-v1" quote_request legacy_registry
     = Some quote_200 /\
   networkFirstWithTimeout offline quote_request API_CACHE 3000 legacy_registry
     = (legacy_registry, Returned quote_200)).
Proof. repeat split; vm_compute; reflexivity. Qed.

(** The same with a fragment: after a document visit of the article, a
    script's fetch of the article with a fragment is answered with the
    static generation's copy, the refreshed response goes to the dynamic
    generation, and the next lookup still answers with the static
    generation's copy. *)
Example lookup_crosses_generations_with_fragment :
  let request := mkRequest "https://deer.example/posts/1#x" "GET" "" [] in
  let rewritten := fun _ => Responds 20 (mkResponse 200 [] "rewritten") in
  let result :=
    cacheFirstWithNetworkFallback rewritten request DYNAMIC_CACHE
                                  visited_registry in
  result.2 = Returned (mkResponse 200 [] (url article_visit)) /\
  generation_match DYNAMIC_CACHE request result.1
    = Some (mkResponse 200 [] "rewritten") /\
  caches_match request result.1
    = Some (mkResponse 200 [] (url article_visit)).
Proof. repeat split; vm_compute; reflexivity. Qed.

(** *** Network-first with a deadline *)

Lemma caches_match_finds request cs name c r :
  (name, c) ∈ cs -> cache_match request c = Some r ->
  exists cached, caches_match request cs = Some cached.
Proof.
  induction cs as [|[n c0] cs IH]; simpl; intros Hin Hr.
  - inversion Hin.
  - destruct (cache_match request c0) as [r0|] eqn:Hc0; [eauto|].
    apply elem_of_cons in Hin as [Heq|Hin]; [|eauto].
    inversion Heq; subst. congruence.
Qed.

(** C4: when the network gives no response within the deadline, be it
    late, failing or silent, [networkFirstWithTimeout] does not wait: it
    returns the cached copy of the request when there is one, and throws
    when there is none.  A copy held by any generation of the registry
    is enough for an answer.  It never stays pending. *)
Theorem networkFirstWithTimeout_falls_back
    net request cacheName timeout cs :
  in_time net request timeout = false ->
  (forall cached, caches_match request cs = Some cached ->
     networkFirstWithTimeout net request cacheName timeout cs
     = (cs, Returned cached)) /\
  (forall name c r,
     (name, c) ∈ cs -> cache_match request c = Some r ->
     exists cached, networkFirstWithTimeout net request cacheName timeout cs
                    = (cs, Returned cached)) /\
  (caches_match request cs = None ->
     exists e, networkFirstWithTimeout net request cacheName timeout cs
               = (cs, Threw e)) /\
  (networkFirstWithTimeout net request cacheName timeout cs).2 <> Pending.
Proof.
  intros Hlate. destruct (deadline_missed _ _ _ Hlate) as [e He].
  unfold networkFirstWithTimeout. rewrite He.
  repeat split.
  - by intros cached ->.
  - intros name c r Hin Hr.
    destruct (caches_match_finds _ _ _ _ _ Hin Hr) as [cached ->]. eauto.
  - intros ->. eauto.
  - by destruct (caches_match request cs).
Qed.

Lemma networkFirstWithTimeout_falls_back_witness :
  in_time slow quote_request 3000 = false /\
  networkFirstWithTimeout slow quote_request API_CACHE 3000
    [(API_CACHE, [mkEntry (url quote_request) [] quote_200])]
  = ([(API_CACHE, [mkEntry (url quote_request) [] quote_200])],
     Returned quote_200) /\
  exists e, networkFirstWithTimeout slow quote_request API_CACHE 3000 []
            = ([], Threw e).
Proof.
  split; [reflexivity|].
  split.
  - apply (networkFirstWithTimeout_falls_back slow quote_request API_CACHE 3000
             [(API_CACHE, [mkEntry (url quote_request) [] quote_200])]);
      reflexivity.
  - apply (networkFirstWithTimeout_falls_back slow quote_request API_CACHE 3000
             []); reflexivity.
Defined.

(** A request with a fragment falls back to the copy stored for the
    URL without it. *)
Example fragment_request_falls_back :
  networkFirstWithTimeout slow
    (mkRequest "https://v1.hitokoto.cn/#x" "GET" "" []) API_CACHE 3000
    [(API_CACHE, [mkEntry "https://v1.hitokoto.cn/" [] quote_200])]
  = ([(API_CACHE, [mkEntry "https://v1.hitokoto.cn/" [] quote_200])],
     Returned quote_200).
Proof. reflexivity. Qed.

(** The deadline holds whatever the network does. *)
Lemma networkFirstWithTimeout_settles net request cacheName timeout cs :
  (networkFirstWithTimeout net request cacheName timeout cs).2 <> Pending.
Proof.
  unfold networkFirstWithTimeout, fetch_with_deadline.
  destruct (net (url request)) as [latency response|latency|];
    repeat (match goal with |- context [if ?b then _ else _] => destruct b end);
    simpl; try discriminate;
    destruct (caches_match request cs); discriminate.
Qed.

(** *** Failure handling in [handleRequest] *)






Lemma handleRequest_fallback origin net request cs :
  network_fails net request = true ->
  caches_match request cs = None ->
  handleRequest origin net request cs
  = (cs, Returned (getOfflineFallback origin request cs)).
Proof.
  intros Hfails Hmiss.
  unfold handleRequest, network_fails in *.
  destruct (isAPIRequest (url request)) eqn:Hapi.
  { apply negb_true_iff in Hfails.
    destruct (deadline_missed _ _ _ Hfails) as [e He].
    unfold networkFirstWithTimeout. by rewrite He, Hmiss. }
  unfold cacheFirstWithNetworkFallback, networkFirstWithCacheFallback, net_fetch.
  rewrite Hmiss.
  destruct (net (url request)) as [l r|l|]; try discriminate.
  destruct (isCDNRequest (url request)); [done|].
  destruct (isStaticAsset (url request)); [done|].
  by destruct (String.eqb (destination request) "document").
Qed.




(** With the article cached and the network down, a visit of the
    article with a fragment is answered with the cached copy, not with
    the offline page. *)
Example fragment_visit_served_from_cache :
  handleRequest site offline
    (mkRequest "https://deer.example/posts/1#comments" "GET" "document" [])
    visited_registry
  = (visited_registry, Returned (mkResponse 200 [] (url article_visit))).
Proof. vm_compute. reflexivity. Qed.

(** *** Installation *)

(** C3, as amended: when an asset of the manifest fails to fetch, the
    pre-caching is all-or-nothing: no entry is committed, in the static
    generation or in any other, and every generation keeps the content
    it had (the static generation is created, empty, if it did not
    exist).  [skipWaiting] is not called, so the worker does not take
    over by force.  The failure is logged and swallowed: the promise
    given to [waitUntil] still returns and the install event
    completes. *)
Theorem failed_install_commits_nothing origin net cs :
  existsb (asset_fails net) (map (resolve origin) STATIC_ASSETS) = true ->
  onInstall origin net cs
  = mkInstallResult (Returned tt) false (caches_open STATIC_CACHE cs) /\
  (forall name,
     cache_of name (install_caches (onInstall origin net cs))
     = cache_of name cs).
Proof.
  intros Hfail.
  assert (onInstall origin net cs
          = mkInstallResult (Returned tt) false (caches_open STATIC_CACHE cs))
    as Heq.
  { unfold onInstall, addAll. by rewrite Hfail. }
  split; [exact Heq|].
  intros name. rewrite Heq. simpl. apply cache_of_caches_open.
Qed.

Lemma failed_install_commits_nothing_witness :
  existsb (asset_fails offline) (map (resolve site) STATIC_ASSETS) = true /\
  onInstall site offline []
  = mkInstallResult (Returned tt) false [(STATIC_CACHE, [])].
Proof.
  split; [reflexivity|].
  apply (failed_install_commits_nothing site offline []). reflexivity.
Defined.

(** C3, as the specification words it, fails: with every asset
    unreachable the install event still completes successfully. *)
Lemma failed_install_still_completes :
  existsb (asset_fails offline) (map (resolve site) STATIC_ASSETS) = true /\
  install_promise (onInstall site offline []) = Returned tt.
Proof. split; reflexivity. Qed.

(** With every asset fetched successfully the manifest is committed
    whole and [skipWaiting] is called. *)
Example install_online :
  install_promise (onInstall site online []) = Returned tt /\
  skipWaiting_called (onInstall site online []) = true /\
  map (fun nc => (nc.1, length nc.2)) (install_caches (onInstall site online []))
  = [(STATIC_CACHE, 18)].
Proof. vm_compute. repeat split; reflexivity. Qed.

End SwFacts.

(** ** Properties of the relay *)

Module RelayFacts.
Import JsString Relay RelaySamples RelayShape.

Lemma prefix_append s t : String.prefix s (s +:+ t) = true.
Proof.
  induction s as [|a s IH]; simpl; [by destruct t|].
  by destruct (ascii_dec a a).
Qed.

Lemma includes_here s t : includes (s +:+ t) s = true.
Proof.
  destruct s as [|a s]; simpl.
  - by destruct t.
  - unfold startsWith.
    pose proof (prefix_append (String a s) t) as H. simpl in H.
    by rewrite H.
Qed.

Lemma includes_later a t p : includes t p = true -> includes (a +:+ t) p = true.
Proof.
  intros H. induction a as [|c a IH]; simpl; [done|].
  rewrite IH. apply orb_true_r.
Qed.

(** *** The text of the message *)

(** The message is built exactly when its four substitutions convert
    to text, and is then the template filled with the four texts. *)
Lemma message_text name url logo desc msg :
  message name url logo desc = Some msg <->
  exists name_text url_text logo_text desc_text,
    value_toString name = Some name_text /\
    value_toString url = Some url_text /\
    value_toString (or_else logo (JStr "无")) = Some logo_text /\
    value_toString (or_else desc (JStr "无")) = Some desc_text /\
    msg = "【友链申请】" +:+ lf +:+ "站点名: " +:+ name_text +:+ lf +:+
          "链接: " +:+ url_text +:+ lf +:+
          "Logo: " +:+ logo_text +:+ lf +:+
          "描述: " +:+ desc_text.
Proof.
  unfold message. split.
  - destruct (value_toString name) as [a|]; [|discriminate].
    destruct (value_toString url) as [b|]; [|discriminate].
    destruct (value_toString (or_else logo (JStr "无"))) as [c|];
      [|discriminate].
    destruct (value_toString (or_else desc (JStr "无"))) as [d|];
      [|discriminate].
    cbn. intros [= <-]. by exists a, b, c, d.
  - intros (a & b & c & d & -> & -> & -> & -> & ->). reflexivity.
Qed.

(** The message fails to build exactly when one of the four
    substitutions fails to convert. *)
Lemma message_none name url logo desc :
  message name url logo desc = None <->
  value_toString name = None \/
  value_toString url = None \/
  value_toString (or_else logo (JStr "无")) = None \/
  value_toString (or_else desc (JStr "无")) = None.
Proof.
  unfold message.
  destruct (value_toString name) as [a|]; [|by split; auto].
  destruct (value_toString url) as [b|]; [|by split; auto].
  destruct (value_toString (or_else logo (JStr "无"))) as [c|];
    [|by split; auto].
  destruct (value_toString (or_else desc (JStr "无"))) as [d|];
    [|by split; auto].
  cbn. split; [discriminate|]. intros [H|[H|[H|H]]]; discriminate.
Qed.

(** The message names the site and its link. *)
Lemma message_includes name_text url_text logo_text desc_text msg :
  msg = "【友链申请】" +:+ lf +:+ "站点名: " +:+ name_text +:+ lf +:+
        "链接: " +:+ url_text +:+ lf +:+
        "Logo: " +:+ logo_text +:+ lf +:+
        "描述: " +:+ desc_text ->
  includes msg name_text = true /\ includes msg url_text = true.
Proof.
  intros ->. split.
  - do 3 apply includes_later. apply includes_here.
  - do 6 apply includes_later. apply includes_here.
Qed.

(** Strings, numbers, booleans and [null] always convert; so does an
    object that has no member called [toString]. *)
Lemma toString_scalar v :
  match v with JArr _ | JObj _ => False | _ => True end ->
  exists text, toString v = Some text.
Proof. destruct v as [|[]| | | |]; cbn; intros H; try done; eauto. Qed.

Lemma toString_plain_object members :
  get "toString" members = None ->
  toString (JObj members) = Some "[object Object]".
Proof. intros H. cbn. by rewrite H. Qed.

Lemma toString_own_member members v :
  get "toString" members = Some v -> toString (JObj members) = None.
Proof. intros H. cbn. by rewrite H. Qed.

(** The fields of the documented request are strings, [logo] and
    [desc] optional: for these the message is always built. *)
Lemma message_of_strings name url logo desc :
  (exists s, name = Some (JStr s)) ->
  (exists s, url = Some (JStr s)) ->
  (logo = None \/ exists s, logo = Some (JStr s)) ->
  (desc = None \/ exists s, desc = Some (JStr s)) ->
  exists msg, message name url logo desc = Some msg.
Proof.
  intros [a ->] [b ->] Hlogo Hdesc. unfold message. cbn.
  assert (exists c, value_toString (or_else logo (JStr "无")) = Some c)
    as [c ->].
  { destruct Hlogo as [->|[s ->]]; [by eexists|].
    unfold or_else. destruct (truthy _); by eexists. }
  assert (exists d, value_toString (or_else desc (JStr "无")) = Some d)
    as [d ->].
  { destruct Hdesc as [->|[s ->]]; [by eexists|].
    unfold or_else. destruct (truthy _); by eexists. }
  cbn. eauto.
Qed.

(** *** The handler on a parsed body *)

(** The dispatch on [pushType], as two tests in a row. *)
Lemma dispatch {T} (v : value) (A B C : T) :
  match v with
  | Some (JStr "telegram") => A
  | Some (JStr "feishu") => B
  | _ => C
  end
  = if is_string v "telegram" then A
    else if is_string v "feishu" then B else C.
Proof.
  destruct v as [[| | |s| |]|]; try reflexivity.
  unfold is_string.
  repeat (match goal with
          | |- context [match ?x with _ => _ end] => destruct x
          end; cbn; try reflexivity).
Qed.

Lemma is_string_eq v s : is_string v s = true <-> v = Some (JStr s).
Proof.
  unfold is_string. destruct v as [[| | |t| |]|]; try (split; discriminate).
  rewrite String.eqb_eq. split; [by intros -> | by intros [= ->]].
Qed.

(** The handler on a POST whose body parsed to something other than
    [null]. *)
Lemma fetch_post upstream request env data :
  relay_method request = "POST" ->
  json_body request = Some data ->
  data <> JNull ->
  fetch upstream request env
  = if negb (truthy (field "name" data)) || negb (truthy (field "url" data))
       || negb (truthy (field "pushType" data))
    then ([], Responded (corsResponse (Some "Missing required fields") 400))
    else
      match message (field "name" data) (field "url" data)
                    (field "logo" data) (field "desc" data) with
      | None => ([], Thrown)
      | Some msg =>
          if is_string (field "pushType" data) "telegram" then
            if negb (configured (TG_BOT_TOKEN env))
               || negb (configured (TG_CHAT_ID env))
            then ([], Responded (corsResponse (Some "Telegram配置缺失") 500))
            else push upstream
                   (telegram_request (text_of (TG_BOT_TOKEN env))
                      (text_of (TG_CHAT_ID env)) msg)
          else if is_string (field "pushType" data) "feishu" then
            if negb (configured (FEISHU_WEBHOOK env))
            then ([], Responded (corsResponse (Some "飞书配置缺失") 500))
            else push upstream
                   (feishu_request (text_of (FEISHU_WEBHOOK env)) msg)
          else ([], Responded (corsResponse (Some "不支持的推送方式") 400))
      end.
Proof.
  intros Hpost Hbody Hdata. unfold fetch. rewrite Hpost, Hbody.
  change (String.eqb "POST" "OPTIONS") with false.
  change (String.eqb "POST" "POST") with true.
  cbv iota beta delta [negb].
  destruct data; try done; cbv zeta;
    destruct (_ || _ || _); try reflexivity;
    destruct (message _ _ _ _); try reflexivity;
    by rewrite <- dispatch.
Qed.

Lemma truthy_not_null data :
  truthy (field "name" data) = true -> data <> JNull.
Proof. by intros H ->. Qed.

Lemma append_assoc3 (a b c : string) : (a +:+ b) +:+ c = a +:+ b +:+ c.
Proof.
  induction a as [|x a IH]; [done|].
  change (String x ((a +:+ b) +:+ c) = String x (a +:+ b +:+ c)).
  by rewrite IH.
Qed.


(** The body that [JSON.stringify] gives the Feishu call. *)
Lemma stringify_feishu msg :
  stringify (JObj [("msg_type", JStr "text");
                   ("content", JObj [("text", JStr msg)])])
  = "{" +:+ dquote +:+ "msg_type" +:+ dquote +:+ ":"
    +:+ dquote +:+ "text" +:+ dquote +:+ ","
    +:+ dquote +:+ "content" +:+ dquote +:+ ":{"
    +:+ dquote +:+ "text" +:+ dquote +:+ ":"
    +:+ dquote +:+ escape msg +:+ dquote +:+ "}}".
Proof.
  cbn [stringify]. unfold quote.
  change (escape "msg_type") with "msg_type".
  change (escape "content") with "content".
  change (escape "text") with "text".
  rewrite !append_assoc3. reflexivity.
Qed.

Lemma stringify_ok :
  stringify (JObj [("ok", JBool true)])
  = "{" +:+ dquote +:+ "ok" +:+ dquote +:+ ":true}".
Proof. reflexivity. Qed.







(** An empty webhook counts as unset. *)
Lemma feishu_not_configured upstream data env msg :
  truthy (field "name" data) = true ->
  truthy (field "url" data) = true ->
  field "pushType" data = Some (JStr "feishu") ->
  message (field "name" data) (field "url" data)
          (field "logo" data) (field "desc" data) = Some msg ->
  configured (FEISHU_WEBHOOK env) = false ->
  fetch upstream (mkRelayRequest "POST" (Some data)) env
  = ([], Responded (corsResponse (Some "飞书配置缺失") 500)).
Proof.
  intros Hname Hurl Hpush Hmsg Hhook.
  rewrite (fetch_post upstream (mkRelayRequest "POST" (Some data)) env data)
    by (try reflexivity; by apply truthy_not_null).
  by rewrite Hname, Hurl, Hpush, Hmsg, Hhook.
Qed.

(** A name that is present but empty counts as missing. *)
Example empty_name_is_missing :
  fetch accepting
        (mkRelayRequest "POST"
           (Some (JObj [ ("name", JStr ""); ("url", JStr "https://x.example");
                         ("pushType", JStr "telegram") ])))
        telegram_env
  = ([], Responded (corsResponse (Some "Missing required fields") 400)).
Proof. reflexivity. Qed.

(** Conversions of parsed values, as the template literal makes them. *)
Example toString_samples :
  toString (JArr [JNum 1; JNull; JStr "a"]) = Some "1,,a" /\
  toString (JObj [("a", JNum 1)]) = Some "[object Object]" /\
  toString (JObj [("toString", JNum 0)]) = None /\
  toString (JArr [JStr "a"; JObj [("toString", JNull)]]) = None.
Proof. repeat split; reflexivity. Qed.

End RelayFacts.

(** ** Further properties of the service worker *)

Module SwMore.
Import JsString ServiceWorker Samples SwMessages.

(** *** Reading and writing one generation *)

Lemma caches_has_true g cs : caches_has g cs = true <-> g ∈ caches_keys cs.
Proof. unfold caches_has. apply bool_decide_eq_true. Qed.

Lemma caches_open_has g cs : g ∈ caches_keys (caches_open g cs).
Proof.
  unfold caches_open. destruct (caches_has g cs) eqn:H.
  - by apply caches_has_true.
  - unfold caches_keys. rewrite fmap_app. apply elem_of_app. right.
    simpl. apply list_elem_of_here.
Qed.

Lemma put_in_keys g request response cs :
  caches_keys (put_in g request response cs) = caches_keys cs.
Proof.
  unfold caches_keys. induction cs as [|[n c] cs IH]; [done|].
  cbn [put_in]. destruct (String.eqb n g); [done|].
  rewrite !fmap_cons. by rewrite IH.
Qed.

Lemma cache_of_put_in g request response cs :
  g ∈ caches_keys cs ->
  cache_of g (put_in g request response cs)
  = put_entry request response (cache_of g cs).
Proof.
  unfold caches_keys.
  induction cs as [|[n c] cs IH]; simpl; intros Hin; [inversion Hin|].
  destruct (String.eqb_spec n g) as [->|Hne]; simpl.
  - by rewrite String.eqb_refl.
  - destruct (String.eqb_spec n g); [done|].
    apply IH. apply elem_of_cons in Hin as [?|?]; [congruence|done].
Qed.

Lemma same_header_refl field hs : same_header field hs hs = true.
Proof.
  unfold same_header. destruct (header_get field hs); [|done].
  apply String.eqb_refl.
Qed.

(** A request matches the pair that a [put] of it stores. *)
Lemma matches_stored request response :
  put_refused request response = false ->
  matches request (mkEntry (without_fragment (url request))
                           (request_headers request) response) = true.
Proof.
  unfold put_refused, matches, vary_star. cbn [entry_url entry_response
    entry_headers].
  intros H.
  apply orb_false_iff in H as [H Hstar].
  apply orb_false_iff in H as [H _].
  apply orb_false_iff in H as [_ Hget].
  apply negb_false_iff in Hget. rewrite Hget, String.eqb_refl. cbn [andb].
  induction (vary_fields response) as [|field fields IH]; [done|].
  cbn [existsb forallb] in *.
  apply orb_false_iff in Hstar as [Hfield Hfields].
  by rewrite Hfield, same_header_refl, IH.
Qed.

(** After a [put], the request finds the response just stored. *)
Lemma cache_match_put_entry request response c :
  put_refused request response = false ->
  cache_match request (put_entry request response c) = Some response.
Proof.
  intros Hput. unfold cache_match, put_entry.
  induction c as [|e c IH]; cbn [List.filter app List.find].
  - by rewrite (matches_stored _ _ Hput).
  - destruct (matches request e) eqn:He; cbn [negb]; [exact IH|].
    cbn [app List.find]. by rewrite He.
Qed.

(** A [put] for another URL leaves what a request finds as it was. *)
Lemma matches_other_url request request' e :
  without_fragment (url request) <> without_fragment (url request') ->
  matches request' e = true -> matches request e = false.
Proof.
  intros Hne. unfold matches. intros H.
  apply andb_true_iff in H as [H _]. apply andb_true_iff in H as [_ H].
  apply String.eqb_eq in H.
  destruct (String.eqb_spec (without_fragment (url request)) (entry_url e));
    [congruence|].
  by rewrite andb_false_r.
Qed.

Lemma cache_match_put_entry_other request request' response c :
  without_fragment (url request) <> without_fragment (url request') ->
  cache_match request (put_entry request' response c) = cache_match request c.
Proof.
  intros Hne. unfold cache_match, put_entry. f_equal.
  induction c as [|e c IH]; cbn [List.filter app List.find].
  - unfold matches at 1. cbn [entry_url].
    destruct (String.eqb_spec (without_fragment (url request))
                              (without_fragment (url request'))); [done|].
    by rewrite andb_false_r.
  - destruct (matches request' e) eqn:He'; cbn [negb].
    + by rewrite (matches_other_url _ _ _ Hne He').
    + cbn [app List.find]. by rewrite IH.
Qed.

Lemma generation_match_cache_put g request response cs :
  put_refused request response = false ->
  generation_match g request (cache_put g request response cs)
  = Some response.
Proof.
  intros Hput. unfold generation_match, cache_put. rewrite Hput.
  rewrite cache_of_put_in by apply caches_open_has.
  by apply cache_match_put_entry.
Qed.

Lemma caches_match_app_empty request g cs :
  caches_match request (cs ++ [(g, [])])%list = caches_match request cs.
Proof.
  induction cs as [|[n c] cs IH]; simpl; [done|].
  by destruct (cache_match request c).
Qed.

Lemma caches_match_caches_open request g cs :
  caches_match request (caches_open g cs) = caches_match request cs.
Proof.
  unfold caches_open. destruct (caches_has g cs); [done|].
  apply caches_match_app_empty.
Qed.

Lemma caches_match_put_in_miss g request response cs :
  g ∈ caches_keys cs ->
  put_refused request response = false ->
  caches_match request cs = None ->
  caches_match request (put_in g request response cs) = Some response.
Proof.
  unfold caches_keys. intros Hin Hput. revert Hin.
  induction cs as [|[n c] cs IH]; simpl; intros Hin Hmiss; [inversion Hin|].
  destruct (cache_match request c) as [r|] eqn:Hc; [discriminate|].
  destruct (String.eqb_spec n g) as [->|Hne]; simpl.
  - by rewrite cache_match_put_entry.
  - rewrite Hc. apply IH; [|done].
    apply elem_of_cons in Hin as [?|?]; [congruence|done].
Qed.

Lemma caches_match_cache_put_miss g request response cs :
  put_refused request response = false ->
  caches_match request cs = None ->
  caches_match request (cache_put g request response cs) = Some response.
Proof.
  intros Hput Hmiss. unfold cache_put. rewrite Hput.
  apply caches_match_put_in_miss; [apply caches_open_has|done|].
  by rewrite caches_match_caches_open.
Qed.

(** A refused [put] stores nothing: it only opens the generation. *)
Lemma cache_put_refused g request response cs name :
  put_refused request response = true ->
  cache_put g request response cs = caches_open g cs /\
  cache_of name (cache_put g request response cs) = cache_of name cs.
Proof.
  intros Hput. unfold cache_put. rewrite Hput.
  split; [done|]. apply SwFacts.cache_of_caches_open.
Qed.

(** *** Installation that succeeds *)

Lemma store_asset_keys net g cs u :
  caches_keys (store_asset net g cs u) = caches_keys cs.
Proof.
  unfold store_asset. destruct (net u); [apply put_in_keys|done|done].
Qed.

Lemma existsb_eqb_false key keys :
  existsb (String.eqb key) keys = false -> key ∉ keys.
Proof.
  induction keys as [|k keys IH]; cbn [existsb]; intros H Hin;
    [inversion Hin|].
  apply orb_false_iff in H as [Hk Hrest].
  apply elem_of_cons in Hin as [->|Hin]; [|by apply IH].
  by rewrite String.eqb_refl in Hk.
Qed.

Lemma store_assets_keep net g urls cs u r :
  g ∈ caches_keys cs ->
  without_fragment u ∉ map without_fragment urls ->
  generation_match g (asset_request u) cs = Some r ->
  generation_match g (asset_request u) (foldl (store_asset net g) cs urls)
  = Some r.
Proof.
  revert cs.
  induction urls as [|a urls IH]; intros cs Hg Hfresh Hu; cbn [foldl];
    [done|].
  cbn [map] in Hfresh. apply not_elem_of_cons in Hfresh as [Hne Hfresh].
  apply IH; [by rewrite store_asset_keys | done |].
  unfold store_asset. destruct (net a) as [l' r'| |]; try done.
  unfold generation_match in *. rewrite cache_of_put_in by done.
  by rewrite cache_match_put_entry_other.
Qed.

Lemma asset_answers net u :
  asset_fails net u = false -> asset_hangs net u = false ->
  exists l r, net u = Responds l r /\ ok r = true /\
              put_refused (asset_request u) r = false.
Proof.
  unfold asset_fails, asset_hangs, put_refused. cbn [asset_request url method].
  destruct (net u) as [l r| |]; try discriminate.
  - intros H _. apply orb_false_iff in H as [Hscheme H].
    apply orb_false_iff in H as [H Hstar].
    apply orb_false_iff in H as [Hok Hpartial].
    apply negb_false_iff in Hok.
    exists l, r. split; [done|]. split; [done|].
    by rewrite Hscheme, Hpartial, Hstar.
  - intros H. by rewrite orb_true_r in H.
Qed.

Lemma store_assets_commit net g urls cs u l r :
  g ∈ caches_keys cs ->
  u ∈ urls ->
  has_duplicate (map without_fragment urls) = false ->
  net u = Responds l r ->
  put_refused (asset_request u) r = false ->
  generation_match g (asset_request u) (foldl (store_asset net g) cs urls)
  = Some r.
Proof.
  intros Hg Hin Hdup Hnet Hput. revert cs Hg.
  induction urls as [|a urls IH]; intros cs Hg; cbn [foldl];
    [inversion Hin|].
  cbn [map has_duplicate] in Hdup.
  apply orb_false_iff in Hdup as [Hfresh Hdup].
  destruct (decide (u = a)) as [->|Hne].
  - apply store_assets_keep;
      [by rewrite store_asset_keys | by apply existsb_eqb_false |].
    unfold store_asset, generation_match.
    rewrite Hnet, cache_of_put_in by done.
    by apply cache_match_put_entry.
  - apply elem_of_cons in Hin as [?|Hin]; [done|].
    apply IH; [done|done|]. by rewrite store_asset_keys.
Qed.

Lemma store_assets_other net g urls cs name :
  name <> g ->
  cache_of name (foldl (store_asset net g) cs urls) = cache_of name cs.
Proof.
  intros Hne. revert cs.
  induction urls as [|a urls IH]; intros cs; simpl; [done|].
  rewrite IH. unfold store_asset.
  destruct (net a); [by apply SwFacts.put_in_other|done|done].
Qed.

Lemma existsb_false_elem {A} (p : A -> bool) (l : list A) x :
  existsb p l = false -> x ∈ l -> p x = false.
Proof.
  induction l as [|y l IH]; simpl; intros H Hin; [inversion Hin|].
  apply orb_false_iff in H as [Hy Hl].
  apply elem_of_cons in Hin as [->|Hin]; auto.
Qed.

(** The manifest's URLs are distinct, also up to the fragment, under an
    origin that has no [#] in it. *)
Lemma without_fragment_app origin path :
  without_fragment origin = origin ->
  without_fragment (origin +:+ path) = origin +:+ without_fragment path.
Proof.
  induction origin as [|c origin IH]; simpl; [done|].
  destruct (Ascii.eqb c "#"); [discriminate|].
  intros H. injection H as H. by rewrite IH.
Qed.

Lemma eqb_app_prefix origin p q :
  String.eqb (origin +:+ p) (origin +:+ q) = String.eqb p q.
Proof.
  induction origin as [|c origin IH]; simpl; [done|].
  by rewrite Ascii.eqb_refl.
Qed.

Lemma existsb_map_prefix origin p paths :
  existsb (String.eqb (origin +:+ p)) (map (append origin) paths)
  = existsb (String.eqb p) paths.
Proof.
  induction paths as [|q paths IH]; cbn [map existsb]; [done|].
  by rewrite eqb_app_prefix, IH.
Qed.

Lemma has_duplicate_map_prefix origin paths :
  has_duplicate (map (append origin) paths) = has_duplicate paths.
Proof.
  induction paths as [|p paths IH]; cbn [map has_duplicate]; [done|].
  by rewrite IH, existsb_map_prefix.
Qed.

Lemma manifest_distinct origin :
  without_fragment origin = origin ->
  has_duplicate (map without_fragment (map (resolve origin) STATIC_ASSETS))
  = false.
Proof.
  intros Horigin. rewrite map_map.
  rewrite (map_ext _ (fun path => origin +:+ without_fragment path))
    by (intros path; unfold resolve; by apply without_fragment_app).
  rewrite <- (map_map without_fragment (append origin)).
  rewrite has_duplicate_map_prefix. vm_compute. reflexivity.
Qed.

(** X1: an install whose assets all answer with a response that the
    cache accepts (a successful status other than 206, no [Vary: *],
    under an http(s) origin without fragment) completes, calls
    [skipWaiting], and commits the whole manifest: a lookup of every
    manifest URL in the static generation finds the response the
    network gave for it, and no other generation changes.  When an
    asset is answered with a 206, albeit a successful status, nothing
    is committed and [skipWaiting] is not called. *)
Theorem install_commits_manifest origin net cs :
  without_fragment origin = origin ->
  (existsb (asset_fails net) (map (resolve origin) STATIC_ASSETS) = false ->
   existsb (asset_hangs net) (map (resolve origin) STATIC_ASSETS) = false ->
   install_promise (onInstall origin net cs) = Returned tt /\
   skipWaiting_called (onInstall origin net cs) = true /\
   (forall asset, asset ∈ STATIC_ASSETS ->
      exists l r,
        net (resolve origin asset) = Responds l r /\ ok r = true /\
        status r <> 206%nat /\ vary_star r = false /\
        generation_match STATIC_CACHE (asset_request (resolve origin asset))
          (install_caches (onInstall origin net cs)) = Some r) /\
   (forall name, name <> STATIC_CACHE ->
      cache_of name (install_caches (onInstall origin net cs))
      = cache_of name cs)) /\
  (forall asset l r,
     asset ∈ STATIC_ASSETS ->
     net (resolve origin asset) = Responds l r ->
     status r = 206%nat \/ vary_star r = true ->
     skipWaiting_called (onInstall origin net cs) = false /\
     install_caches (onInstall origin net cs) = caches_open STATIC_CACHE cs).
Proof.
  intros Horigin. split.
  - intros Hfail Hhang.
    assert (onInstall origin net cs
            = mkInstallResult (Returned tt) true
                (foldl (store_asset net STATIC_CACHE)
                       (caches_open STATIC_CACHE cs)
                       (map (resolve origin) STATIC_ASSETS))) as ->.
    { unfold onInstall, addAll.
      by rewrite Hfail, Hhang, (manifest_distinct _ Horigin). }
    cbn [install_promise skipWaiting_called install_caches].
    split; [done|]. split; [done|]. split.
    + intros asset Hin.
      assert (resolve origin asset ∈ map (resolve origin) STATIC_ASSETS) as Hu.
      { apply list_elem_of_In, in_map. by apply list_elem_of_In. }
      destruct (asset_answers net (resolve origin asset))
        as (l & r & Hnet & Hok & Hput).
      * eapply existsb_false_elem; eauto.
      * eapply existsb_false_elem; eauto.
      * exists l, r. split; [done|]. split; [done|].
        assert (status r <> 206%nat /\ vary_star r = false)
          as [Hpartial Hstar].
        { unfold put_refused in Hput.
          apply orb_false_iff in Hput as [Hrest Hstar].
          apply orb_false_iff in Hrest as [_ Hpartial].
          by apply Nat.eqb_neq in Hpartial. }
        split; [done|]. split; [done|].
        eapply store_assets_commit; eauto using manifest_distinct.
        apply caches_open_has.
    + intros name Hne. rewrite store_assets_other by done.
      apply SwFacts.cache_of_caches_open.
  - intros asset l r Hin Hnet Hbad.
    assert (existsb (asset_fails net) (map (resolve origin) STATIC_ASSETS)
            = true) as Hfail.
    { apply existsb_exists. exists (resolve origin asset). split.
      - apply in_map. by apply list_elem_of_In.
      - unfold asset_fails. rewrite Hnet.
        destruct Hbad as [Hpartial|Hstar].
        + rewrite Hpartial, Nat.eqb_refl. by rewrite !orb_true_r.
        + rewrite Hstar. by rewrite !orb_true_r. }
    unfold onInstall, addAll. by rewrite Hfail.
Qed.

Lemma install_commits_manifest_witness :
  (install_promise (onInstall site online []) = Returned tt /\
   skipWaiting_called (onInstall site online []) = true) /\
  skipWaiting_called
    (onInstall site (fun u => Responds 20 (mkResponse 206 [] u)) [])
  = false.
Proof.
  pose proof (install_commits_manifest site online [] eq_refl)
    as [Hcommit _].
  pose proof (install_commits_manifest site
                (fun u => Responds 20 (mkResponse 206 [] u)) [] eq_refl)
    as [_ Hpartial].
  split.
  - destruct (Hcommit eq_refl eq_refl) as (Hpromise & Hskip & _).
    split; [exact Hpromise | exact Hskip].
  - destruct (Hpartial "/" 20 (mkResponse 206 [] (resolve site "/")))
      as [Hskip _].
    + apply (bool_decide_unpack _). vm_compute. reflexivity.
    + reflexivity.
    + left. reflexivity.
    + exact Hskip.
Defined.

(** *** What activation deletes *)

Lemma List_filter_filter {A} (p q : A -> bool) (l : list A) :
  List.filter p (List.filter q l) = List.filter (fun x => q x && p x) l.
Proof.
  induction l as [|x l IH]; simpl; [done|].
  destruct (q x); simpl; [|done]. destruct (p x); by rewrite IH.
Qed.

Lemma sweep_deleted names acc :
  (foldl delete_if_stale acc names).1
  = (acc.1 ++ List.filter (fun n => negb (is_current n)) names)%list.
Proof.
  revert acc. induction names as [|a names IH]; intros acc; simpl.
  - by rewrite app_nil_r.
  - rewrite IH. unfold delete_if_stale.
    destruct (is_current a); simpl; [done|]. by rewrite <- app_assoc.
Qed.

Lemma sweep_kept names acc :
  (foldl delete_if_stale acc names).2
  = List.filter
      (fun nc => is_current nc.1 || negb (bool_decide (nc.1 ∈ names))) acc.2.
Proof.
  revert acc. induction names as [|a names IH]; intros acc; cbn [foldl].
  - transitivity (List.filter (fun _ => true) acc.2).
    { induction (acc.2) as [|nc l IHl]; simpl; congruence. }
    apply filter_ext. intros nc.
    case_bool_decide as H; [inversion H|]. by rewrite orb_true_r.
  - rewrite IH. unfold delete_if_stale.
    destruct (is_current a) eqn:Ha; cbn [negb snd].
    + apply filter_ext. intros nc.
      destruct (is_current nc.1) eqn:Hnc; [done|]. cbn [orb]. f_equal.
      apply bool_decide_ext. rewrite elem_of_cons.
      split; [auto|]. intros [Heq|H]; [congruence|done].
    + unfold caches_delete. rewrite List_filter_filter.
      apply filter_ext. intros nc.
      destruct (String.eqb_spec nc.1 a) as [Heq|Hne]; cbn [negb andb].
      * rewrite Heq, Ha. cbn [orb]. symmetry. apply negb_false_iff.
        apply bool_decide_eq_true_2. apply list_elem_of_here.
      * f_equal. f_equal. apply bool_decide_ext. rewrite elem_of_cons.
        split; [auto|]. intros [?|?]; [done|done].
Qed.

Lemma cache_of_filter_current name cs :
  is_current name = true ->
  cache_of name (List.filter (fun nc => is_current nc.1) cs) = cache_of name cs.
Proof.
  intros Hname. induction cs as [|[n c] cs IH]; simpl; [done|].
  destruct (is_current n) eqn:Hn; simpl.
  - by rewrite IH.
  - destruct (String.eqb_spec n name) as [->|_]; [congruence|done].
Qed.

(** X2: activation deletes exactly the generations whose name is not
    one of the three current names, in the order of the registry; the
    current generations stay, in order and with the entries they had;
    and the clients are claimed. *)
Theorem activate_deletes_exactly_stale cs :
  deleted (onActivate cs)
  = List.filter (fun n => negb (is_current n)) (caches_keys cs) /\
  activate_caches (onActivate cs)
  = List.filter (fun nc => is_current nc.1) cs /\
  (forall name, is_current name = true ->
     cache_of name (activate_caches (onActivate cs)) = cache_of name cs) /\
  claimed (onActivate cs) = true.
Proof.
  assert (activate_caches (onActivate cs)
          = List.filter (fun nc => is_current nc.1) cs) as Hkept.
  { unfold onActivate. simpl. rewrite sweep_kept. simpl.
    apply List.filter_ext_in. intros nc Hin.
    rewrite bool_decide_eq_true_2; [by rewrite orb_false_r|].
    unfold caches_keys. apply list_elem_of_fmap. exists nc.
    split; [done | by apply list_elem_of_In]. }
  split; [|split; [exact Hkept|split; [|done]]].
  - unfold onActivate. simpl. by rewrite sweep_deleted.
  - intros name Hname. rewrite Hkept. by apply cache_of_filter_current.
Qed.

(** *** Storing and finding again *)

Lemma in_time_fetch net request timeout l r :
  net (url request) = Responds l r -> (l <? timeout)%nat = true ->
  fetch_with_deadline net request timeout = Returned r.
Proof. intros Hnet Hl. unfold fetch_with_deadline. by rewrite Hnet, Hl. Qed.

(** X3: a successful response that arrives before the deadline is
    returned, and [put] under the given generation.  When the cache
    accepts it (a GET of an http(s) URL, a status other than 206, no
    [Vary: *]), a lookup in that generation finds it, and when no
    generation held a copy before, it is the copy that the strategy
    falls back to once the network gives nothing.  When the cache
    refuses it, it is returned all the same and nothing is stored. *)
Theorem networkFirstWithTimeout_stores_then_serves
    net request cacheName timeout cs l r :
  net (url request) = Responds l r ->
  (l <? timeout)%nat = true ->
  ok r = true ->
  let cs' := (networkFirstWithTimeout net request cacheName timeout cs).1 in
  (networkFirstWithTimeout net request cacheName timeout cs).2 = Returned r /\
  (put_refused request r = false ->
   generation_match cacheName request cs' = Some r /\
   (caches_match request cs = None ->
    forall net' timeout',
      in_time net' request timeout' = false ->
      networkFirstWithTimeout net' request cacheName timeout' cs'
      = (cs', Returned r))) /\
  (put_refused request r = true ->
   cs' = caches_open cacheName cs /\
   forall name, cache_of name cs' = cache_of name cs).
Proof.
  intros Hnet Hl Hok cs'.
  assert (networkFirstWithTimeout net request cacheName timeout cs
          = (cache_put cacheName request r cs, Returned r)) as Heq.
  { unfold networkFirstWithTimeout.
    by rewrite (in_time_fetch _ _ _ _ _ Hnet Hl), Hok. }
  subst cs'. rewrite Heq. cbn [fst snd].
  split; [done|]. split.
  - intros Hput. split; [by apply generation_match_cache_put|].
    intros Hmiss net' timeout' Hlate.
    destruct (SwFacts.deadline_missed _ _ _ Hlate) as [e He].
    unfold networkFirstWithTimeout at 1. rewrite He.
    by rewrite caches_match_cache_put_miss.
  - intros Hput. split; [by apply cache_put_refused|].
    intros name. by apply cache_put_refused.
Qed.

Lemma networkFirstWithTimeout_stores_then_serves_witness :
  (networkFirstWithTimeout online quote_request API_CACHE 3000 []).2
  = Returned (mkResponse 200 [] (url quote_request)) /\
  generation_match API_CACHE quote_request
    (networkFirstWithTimeout online quote_request API_CACHE 3000 []).1
  = Some (mkResponse 200 [] (url quote_request)) /\
  (networkFirstWithTimeout (fun _ => Responds 20 (mkResponse 206 [] "part"))
     quote_request API_CACHE 3000 []).1
  = [(API_CACHE, [])].
Proof.
  pose proof (networkFirstWithTimeout_stores_then_serves online quote_request
                API_CACHE 3000 [] 20 (mkResponse 200 [] (url quote_request))
                eq_refl eq_refl eq_refl) as (Hreturned & Hstored & _).
  pose proof (networkFirstWithTimeout_stores_then_serves
                (fun _ => Responds 20 (mkResponse 206 [] "part"))
                quote_request API_CACHE 3000 [] 20 (mkResponse 206 [] "part")
                eq_refl eq_refl eq_refl) as (_ & _ & Hrefused).
  split; [exact Hreturned|]. split.
  - exact (proj1 (Hstored eq_refl)).
  - exact (proj1 (Hrefused eq_refl)).
Defined.

(** X4: an unsuccessful response from the network is passed on as it
    is by the network-first tiers: for an API request answered before the
    deadline, and for a document that is no API, CDN or static URL, a
    response whose status is not successful is what the handler
    returns, even when a cached copy exists; nothing is stored and the
    offline fallback is not used. *)
Theorem network_first_passes_error_status origin net request cs l r :
  net (url request) = Responds l r ->
  ok r = false ->
  (isAPIRequest (url request) = true /\ (l <? 3000)%nat = true) \/
  (isAPIRequest (url request) = false /\
   isCDNRequest (url request) = false /\
   isStaticAsset (url request) = false /\
   String.eqb (destination request) "document" = true) ->
  handleRequest origin net request cs = (cs, Returned r).
Proof.
  intros Hnet Hok [[Hapi Hl]|(Hapi & Hcdn & Hstatic & Hdoc)];
    unfold handleRequest.
  - rewrite Hapi. unfold networkFirstWithTimeout.
    by rewrite (in_time_fetch _ _ _ _ _ Hnet Hl), Hok.
  - rewrite Hapi, Hcdn, Hstatic, Hdoc.
    unfold networkFirstWithCacheFallback, net_fetch.
    by rewrite Hnet, Hok.
Qed.

Lemma network_first_passes_error_status_witness :
  handleRequest site (fun _ => Responds 20 (mkResponse 503 [] "busy"))
    quote_request [(API_CACHE, [mkEntry (url quote_request) [] quote_200])]
  = ([(API_CACHE, [mkEntry (url quote_request) [] quote_200])],
     Returned (mkResponse 503 [] "busy")).
Proof.
  apply (network_first_passes_error_status site
           (fun _ => Responds 20 (mkResponse 503 [] "busy")) quote_request
           [(API_CACHE, [mkEntry (url quote_request) [] quote_200])] 20
           (mkResponse 503 [] "busy")); [reflexivity | reflexivity |].
  left. split; reflexivity.
Defined.

(** *** Background refresh *)

Lemma first_holder_in request cs name c :
  first_holder request cs = Some (name, c) -> name ∈ caches_keys cs.
Proof.
  unfold first_holder, caches_keys. intros H.
  apply find_some in H as [Hin _].
  apply list_elem_of_fmap. exists (name, c). split; [done|].
  by apply list_elem_of_In.
Qed.

Lemma caches_open_present g cs : g ∈ caches_keys cs -> caches_open g cs = cs.
Proof.
  intros H. unfold caches_open.
  by rewrite (proj2 (caches_has_true g cs) H).
Qed.

Lemma caches_match_put_in_holder g request response cs c :
  put_refused request response = false ->
  first_holder request cs = Some (g, c) ->
  caches_match request (put_in g request response cs) = Some response.
Proof.
  intros Hput. unfold first_holder.
  induction cs as [|[n c0] cs IH]; cbn [List.find put_in]; [discriminate|].
  cbn [snd]. intros Hfind.
  destruct (cache_match request c0) as [r0|] eqn:Hc0.
  - rewrite bool_decide_eq_true_2 in Hfind by eauto.
    inversion Hfind; subst. rewrite String.eqb_refl.
    cbn [caches_match]. by rewrite cache_match_put_entry.
  - rewrite bool_decide_eq_false_2 in Hfind by (intros [? ?]; discriminate).
    destruct (String.eqb n g); cbn [caches_match].
    + by rewrite cache_match_put_entry.
    + rewrite Hc0. by apply IH.
Qed.

(** X5: a cache-first hit answers at once with the cached copy and
    refreshes in the background.  When the given generation is the one
    that holds the copy, the network answers successfully and the cache
    accepts the response, the fresh response replaces the copy, so that
    the next lookup finds the fresh one.  When the cache refuses the
    response (a 206, a [Vary: *]), and when the network fails, stays
    silent or answers unsuccessfully, the registry is left as it is. *)
Theorem cache_first_refreshes_given_generation
    net request cacheName cs c cached :
  first_holder request cs = Some (cacheName, c) ->
  cache_match request c = Some cached ->
  (cacheFirstWithNetworkFallback net request cacheName cs).2
  = Returned cached /\
  (forall l fresh,
     net (url request) = Responds l fresh -> ok fresh = true ->
     put_refused request fresh = false ->
     caches_match request
       (cacheFirstWithNetworkFallback net request cacheName cs).1
     = Some fresh) /\
  (forall l fresh,
     net (url request) = Responds l fresh ->
     put_refused request fresh = true ->
     (cacheFirstWithNetworkFallback net request cacheName cs).1 = cs) /\
  ((forall l fresh, net (url request) = Responds l fresh -> ok fresh = false) ->
   (cacheFirstWithNetworkFallback net request cacheName cs).1 = cs).
Proof.
  intros Hholder Hc.
  pose proof (SwFacts.caches_match_first_holder _ _ _ _ _ Hholder Hc) as Hmatch.
  pose proof (first_holder_in _ _ _ _ Hholder) as Hname.
  unfold cacheFirstWithNetworkFallback, updateCacheInBackground, net_fetch.
  rewrite Hmatch. cbn [fst snd].
  split; [done|]. split; [|split].
  - intros l fresh Hnet Hok Hput. rewrite Hnet, Hok.
    unfold cache_put. rewrite Hput, caches_open_present by done.
    eapply caches_match_put_in_holder; eauto.
  - intros l fresh Hnet Hput. rewrite Hnet.
    destruct (ok fresh); [|done].
    unfold cache_put. by rewrite Hput, caches_open_present.
  - intros Hbad. destruct (net (url request)) as [l fresh| |] eqn:Hnet;
      [|done|done].
    by rewrite (Hbad l fresh eq_refl).
Qed.

Lemma cache_first_refreshes_given_generation_witness :
  (cacheFirstWithNetworkFallback online article_visit STATIC_CACHE
     visited_registry).2
  = Returned (mkResponse 200 [] (url article_visit)) /\
  (cacheFirstWithNetworkFallback
     (fun _ => Responds 20 (mkResponse 206 [] "part")) article_visit
     STATIC_CACHE visited_registry).1
  = visited_registry.
Proof.
  split.
  - apply (cache_first_refreshes_given_generation online article_visit
             STATIC_CACHE visited_registry
             [mkEntry (url article_visit) []
                      (mkResponse 200 [] (url article_visit))]
             (mkResponse 200 [] (url article_visit)));
      reflexivity.
  - destruct (cache_first_refreshes_given_generation
                (fun _ => Responds 20 (mkResponse 206 [] "part"))
                article_visit STATIC_CACHE visited_registry
                [mkEntry (url article_visit) []
                         (mkResponse 200 [] (url article_visit))]
                (mkResponse 200 [] (url article_visit)) eq_refl eq_refl)
      as (_ & _ & Hrefused & _).
    exact (Hrefused 20 (mkResponse 206 [] "part") eq_refl eq_refl).
Defined.

Lemma caches_has_app_l g pre post :
  g ∉ caches_keys pre ->
  caches_has g (pre ++ post)%list = caches_has g post.
Proof.
  intros Hpre. unfold caches_has, caches_keys.
  apply bool_decide_ext. rewrite fmap_app, elem_of_app.
  split; [intros [?|?]; [done|done] | auto].
Qed.

Lemma put_in_app_l g request response pre post :
  g ∉ caches_keys pre ->
  put_in g request response (pre ++ post)%list
  = (pre ++ put_in g request response post)%list.
Proof.
  unfold caches_keys.
  induction pre as [|[n c] pre IH]; intros Hpre; [done|].
  rewrite fmap_cons in Hpre. apply not_elem_of_cons in Hpre as [Hne Hpre].
  cbn [app put_in]. destruct (String.eqb_spec n g) as [->|_]; [done|].
  by rewrite IH.
Qed.

Lemma caches_match_app_hit request pre post r :
  caches_match request pre = Some r ->
  caches_match request (pre ++ post)%list = Some r.
Proof.
  induction pre as [|[n c] pre IH]; simpl; [discriminate|].
  destruct (cache_match request c); auto.
Qed.

Lemma cache_put_behind g request response pre post cached :
  g ∉ caches_keys pre ->
  caches_match request pre = Some cached ->
  caches_match request (cache_put g request response (pre ++ post)%list)
  = Some cached.
Proof.
  intros Hpre Hhit. unfold cache_put, caches_open.
  rewrite caches_has_app_l by done.
  destruct (put_refused request response), (caches_has g post);
    rewrite <- ?app_assoc, ?put_in_app_l by done;
    by apply caches_match_app_hit.
Qed.

(** X6: a copy held by a generation created before the given one is
    never refreshed.  When the request is found in the generations that
    precede the first one of the given name, the cache-first strategy
    answers with that copy, writes the refreshed response behind it, and
    every later lookup still finds the old copy, whatever the network
    answered. *)
Theorem cache_first_never_refreshes_older_generation
    net request cacheName pre post cached :
  cacheName ∉ caches_keys pre ->
  caches_match request pre = Some cached ->
  (cacheFirstWithNetworkFallback net request cacheName (pre ++ post)%list).2
  = Returned cached /\
  caches_match request
    (cacheFirstWithNetworkFallback net request cacheName (pre ++ post)%list).1
  = Some cached.
Proof.
  intros Hpre Hhit.
  pose proof (caches_match_app_hit _ _ post _ Hhit) as Hmatch.
  unfold cacheFirstWithNetworkFallback, updateCacheInBackground.
  rewrite Hmatch. cbn [fst snd]. split; [done|].
  destruct (net_fetch net request) as [fresh|e|]; [|done|done].
  destruct (ok fresh); [|done].
  by apply cache_put_behind.
Qed.

Lemma cache_first_never_refreshes_older_generation_witness :
  caches_match article_fetch
    (cacheFirstWithNetworkFallback
       (fun _ => Responds 20 (mkResponse 200 [] "rewritten"))
       article_fetch DYNAMIC_CACHE (visited_registry ++ [])%list).1
  = Some (mkResponse 200 [] (url article_fetch)).
Proof.
  apply (cache_first_never_refreshes_older_generation
           (fun _ => Responds 20 (mkResponse 200 [] "rewritten"))
           article_fetch DYNAMIC_CACHE visited_registry []
           (mkResponse 200 [] (url article_fetch))).
  - apply (bool_decide_unpack _). vm_compute. reflexivity.
  - vm_compute. reflexivity.
Defined.

(** *** The message channel *)

Lemma count_caches_registry names cs status :
  (forall n, n ∈ names -> n ∈ caches_keys cs) ->
  (foldl count_cache (cs, status) names).1 = cs.
Proof.
  revert status. induction names as [|a names IH]; intros status Hin;
    cbn [foldl]; [done|].
  unfold count_cache at 2. cbn [fst snd].
  rewrite caches_open_present by (apply Hin, list_elem_of_here).
  apply IH. intros n Hn. apply Hin. by apply list_elem_of_further.
Qed.

Lemma count_cache_eq cs status a :
  a ∈ caches_keys cs ->
  count_cache (cs, status) a
  = (cs, set_count a (length (cache_of a cs)) status).
Proof.
  intros Ha. unfold count_cache. cbn [fst snd].
  by rewrite caches_open_present.
Qed.

Lemma count_caches_others names cs status name :
  (forall n, n ∈ names -> n ∈ caches_keys cs) ->
  name ∉ names \/ name = "__proto__" ->
  (foldl count_cache (cs, status) names).2 !! name = status !! name.
Proof.
  revert status. induction names as [|a names IH]; intros status Hin Hname;
    cbn [foldl]; [done|].
  rewrite count_cache_eq by (apply Hin, list_elem_of_here).
  rewrite IH.
  - unfold set_count.
    destruct (String.eqb_spec a "__proto__") as [Ha|Ha]; [done|].
    apply lookup_insert_ne. intros ->.
    destruct Hname as [Hname|Hname]; [|done].
    apply Hname, list_elem_of_here.
  - intros n Hn. apply Hin. by apply list_elem_of_further.
  - destruct Hname as [Hname|Hname]; [left|by right].
    intros H. apply Hname. by apply list_elem_of_further.
Qed.

Lemma count_caches_status names cs status name :
  (forall n, n ∈ names -> n ∈ caches_keys cs) ->
  name ∈ names -> name <> "__proto__" ->
  (foldl count_cache (cs, status) names).2 !! name
  = Some (length (cache_of name cs)).
Proof.
  revert status. induction names as [|a names IH]; intros status Hin Hname Hne;
    cbn [foldl]; [inversion Hname|].
  rewrite count_cache_eq by (apply Hin, list_elem_of_here).
  assert (forall n, n ∈ names -> n ∈ caches_keys cs) as Hin'.
  { intros n Hn. apply Hin. by apply list_elem_of_further. }
  destruct (decide (name ∈ names)) as [Hlater|Hlast]; [by apply IH|].
  apply elem_of_cons in Hname as [->|Hname]; [|done].
  rewrite count_caches_others by auto.
  unfold set_count.
  destruct (String.eqb_spec a "__proto__") as [Ha|Ha]; [done|].
  apply lookup_insert_eq.
Qed.

(** X7: the cache status has, for every generation of the registry
    whose name is not [__proto__], a property of that name whose value
    is the number of its entries, and no other property; the query
    changes nothing: no generation is created and none altered. *)
Theorem getCacheStatus_counts cs :
  (getCacheStatus cs).1 = cs /\
  (forall name,
     name ∈ caches_keys cs -> name <> "__proto__" ->
     (getCacheStatus cs).2 !! name = Some (length (cache_of name cs))) /\
  (forall name,
     name ∉ caches_keys cs \/ name = "__proto__" ->
     (getCacheStatus cs).2 !! name = None).
Proof.
  unfold getCacheStatus. split; [by apply count_caches_registry|]. split.
  - intros name Hname Hne. by apply count_caches_status.
  - intros name Hname. by rewrite count_caches_others.
Qed.

Example getCacheStatus_legacy :
  (getCacheStatus legacy_registry).1 = legacy_registry /\
  (getCacheStatus legacy_registry).2 !! "deer-homepage-v1" = Some 1%nat /\
  (getCacheStatus legacy_registry).2 !! API_CACHE = Some 0%nat.
Proof. repeat split; vm_compute; reflexivity. Qed.

(** Integer-like names and the name [__proto__]: the status has the
    counts of the first two and no property for the third. *)
Example getCacheStatus_odd_names :
  let registry := [("2", [mkEntry "https://deer.example/" [] page_200]);
                   ("1", []); ("__proto__", [])] in
  (getCacheStatus registry).2 !! "1" = Some 0%nat /\
  (getCacheStatus registry).2 !! "2" = Some 1%nat /\
  (getCacheStatus registry).2 !! "__proto__" = None.
Proof. repeat split; vm_compute; reflexivity. Qed.

(** X8: a message never changes the registry, and [skipWaiting] is
    called exactly for a message whose [type] is [SKIP_WAITING]; a
    status is posted only for [GET_CACHE_STATUS] on a message that came
    with a port. *)
Theorem onMessage_effects data has_port cs :
  message_caches (onMessage data has_port cs) = cs /\
  message_skipWaiting (onMessage data has_port cs)
  = has_type data "SKIP_WAITING" /\
  (is_Some (message_posted (onMessage data has_port cs)) ->
   has_type data "GET_CACHE_STATUS" = true /\ has_port = true).
Proof.
  unfold onMessage.
  destruct (has_type data "GET_CACHE_STATUS"); cbn.
  - split; [|split; [done|]].
    + unfold getCacheStatus. by apply count_caches_registry.
    + destruct has_port; [done|]. intros [? ?]. discriminate.
  - split; [done|]. split; [done|]. intros [? ?]. discriminate.
Qed.

Lemma onMessage_effects_witness :
  has_type (Some (Relay.JObj [("type", Relay.JStr "GET_CACHE_STATUS")]))
           "GET_CACHE_STATUS" = true.
Proof.
  apply (onMessage_effects
           (Some (Relay.JObj [("type", Relay.JStr "GET_CACHE_STATUS")]))
           true legacy_registry).
  vm_compute. eauto.
Defined.

End SwMore.

(** ** Properties of the page's service worker manager *)

Module PageFacts.
Import JsString ServiceWorker Samples SwMessages Page.

Lemma cleared_keys names cs n :
  n ∈ caches_keys (foldl (fun acc name => caches_delete name acc) cs names) ->
  n ∈ caches_keys cs /\ n ∉ names.
Proof.
  revert cs. induction names as [|a names IH]; intros cs Hn; cbn [foldl] in Hn.
  - split; [done | intros H; inversion H].
  - apply IH in Hn as [Hin Hnot].
    apply SwFacts.caches_keys_delete in Hin as [Hin Hne].
    split; [done|]. rewrite elem_of_cons. intros [?|?]; done.
Qed.

Lemma clearAllCaches_empty cs : (clearAllCaches cs).1 = [].
Proof.
  unfold clearAllCaches. cbn [fst].
  destruct (foldl _ cs (caches_keys cs)) as [|[n c] rest] eqn:Heq; [done|].
  exfalso.
  assert (n ∈ caches_keys
            (foldl (fun acc name => caches_delete name acc) cs (caches_keys cs)))
    as Hn.
  { rewrite Heq. unfold caches_keys. rewrite fmap_cons.
    apply list_elem_of_here. }
  apply cleared_keys in Hn as [Hin Hnot]. done.
Qed.

(** X9: [clearAllCaches] leaves the registry empty and reports
    success; a request handled afterwards while the network gives
    nothing finds no cached copy, not even the index page, and is
    answered with the offline page. *)
Theorem clearAllCaches_then_offline cs :
  clearAllCaches cs = ([], true) /\
  forall origin net request,
    network_fails net request = true ->
    handleRequest origin net request (clearAllCaches cs).1
    = ([], Returned offline_page).
Proof.
  pose proof (clearAllCaches_empty cs) as Hempty.
  split.
  - rewrite (surjective_pairing (clearAllCaches cs)), Hempty. done.
  - intros origin net request Hfails. rewrite Hempty.
    rewrite SwFacts.handleRequest_fallback by done.
    unfold getOfflineFallback. cbn [caches_match].
    by destruct (String.eqb (destination request) "document").
Qed.

Lemma clearAllCaches_then_offline_witness :
  handleRequest site offline article_visit (clearAllCaches visited_registry).1
  = ([], Returned offline_page).
Proof.
  apply (clearAllCaches_then_offline visited_registry). reflexivity.
Defined.

(** *** The update prompt *)

Lemma _createUpdateButton_prompts doc :
  (prompts doc <= 1)%nat ->
  prompts (_createUpdateButton doc) = 1%nat.
Proof.
  intros H. unfold _createUpdateButton.
  destruct (0 <? prompts doc)%nat eqn:Hlt; cbn [prompts].
  - apply Nat.ltb_lt in Hlt. lia.
  - apply Nat.ltb_ge in Hlt. lia.
Qed.

Lemma _showUpdatePrompt_prompts doc :
  (prompts doc <= 1)%nat -> prompts (_showUpdatePrompt doc) = 1%nat.
Proof. intros H. unfold _showUpdatePrompt. cbn. by apply _createUpdateButton_prompts. Qed.

Lemma page_step_prompts s ev :
  (prompts s.2 <= 1)%nat -> (prompts (page_step s ev).2 <= 1)%nat.
Proof.
  intros H. destruct s as [m doc]. cbn [fst snd] in *.
  destruct ev as [supported outcome|state controlled| | | |reg];
    cbn [page_step fst snd].
  - unfold register. destruct supported; cbn [negb fst snd]; [|done].
    destruct outcome as [reg|]; cbn [fst snd]; [|done].
    destruct (waiting reg); [|done].
    by rewrite _showUpdatePrompt_prompts.
  - unfold onStateChange.
    destruct (String.eqb state "installed" && controlled); cbn [fst snd];
      [|done].
    by rewrite _showUpdatePrompt_prompts.
  - done.
  - unfold activateUpdate. destruct (registration m) as [reg|]; [|done].
    by destruct (waiting reg).
  - destruct (0 <? prompts doc)%nat; cbn [fst snd dismiss prompts]; lia.
  - by destruct (registration m).
Qed.

(** X10: at most one update prompt is in the document at any time.
    Whatever the page does and whatever happens to it (registrations,
    state changes of new workers, clicks on update and dismiss), a
    document with at most one prompt keeps at most one; and showing the
    prompt always leaves exactly one. *)
Theorem at_most_one_update_prompt events s :
  (prompts s.2 <= 1)%nat ->
  (prompts (page_run events s).2 <= 1)%nat /\
  prompts (_showUpdatePrompt (page_run events s).2) = 1%nat.
Proof.
  intros H.
  assert (prompts (page_run events s).2 <= 1)%nat as Hrun.
  { unfold page_run. revert s H.
    induction events as [|ev events IH]; intros s H; cbn [foldl]; [done|].
    apply IH. by apply page_step_prompts. }
  split; [done|]. by apply _showUpdatePrompt_prompts.
Qed.

Lemma at_most_one_update_prompt_witness :
  (prompts
     (page_run [ Register true (Some (mkRegistration "/" false true true));
                 StateChange "installed" true;
                 ClickDismiss;
                 StateChange "installed" true ]
               (new_manager, blank_document)).2 <= 1)%nat.
Proof.
  apply (at_most_one_update_prompt
           [ Register true (Some (mkRegistration "/" false true true));
             StateChange "installed" true;
             ClickDismiss;
             StateChange "installed" true ]
           (new_manager, blank_document)).
  cbn. lia.
Defined.

End PageFacts.

(** ** Further properties of the relay *)

Module RelayMore.
Import JsString Relay RelaySamples RelayShape MoreSamples.

Lemma fetch_handled upstream request env :
  Handled upstream request env (fetch upstream request env).
Proof.
  destruct (String.eqb (relay_method request) "OPTIONS") eqn:Hopt.
  { unfold fetch. rewrite Hopt. by apply Refused. }
  destruct (String.eqb_spec (relay_method request) "POST") as [Hpost|Hpost].
  2:{ unfold fetch. rewrite Hopt.
      apply String.eqb_neq in Hpost. rewrite Hpost. by apply Refused. }
  destruct (json_body request) as [data|] eqn:Hbody.
  2:{ unfold fetch. rewrite Hopt, Hpost, Hbody. by apply Refused. }
  assert (data = JNull \/ data <> JNull) as [->|Hdata]
    by (destruct data; [by left | right; discriminate ..]).
  { unfold fetch. rewrite Hopt, Hpost, Hbody. by apply Crashed. }
  rewrite (RelayFacts.fetch_post _ _ _ _ Hpost Hbody Hdata).
  destruct (negb _ || negb _ || negb _) eqn:Hmissing; [by apply Refused|].
  destruct (message _ _ _ _) as [msg|] eqn:Hmsg.
  2:{ eapply Unprintable; eauto.
      destruct (truthy (field "name" data)), (truthy (field "url" data)),
        (truthy (field "pushType" data)); done. }
  clear Hmissing.
  destruct (is_string _ "telegram").
  { destruct (negb _ || negb _) eqn:H; [by apply Refused|].
    apply orb_false_iff in H as [H1 H2].
    apply negb_false_iff in H1, H2. by apply PushedTelegram. }
  destruct (is_string _ "feishu"); [|by apply Refused].
  destruct (negb _) eqn:H; [by apply Refused|].
  apply negb_false_iff in H. by apply PushedFeishu.
Qed.

Lemma push_outbound upstream out : (push upstream out).1 = [out].
Proof. unfold push. by destruct (upstream out) as [[]| |]. Qed.

Lemma push_responded upstream out r :
  (push upstream out).2 = Responded r ->
  exists body status, r = corsResponse body status.
Proof.
  unfold push. destruct (upstream out) as [[]| |]; cbn; intros [= <-]; eauto.
Qed.

(** X11: every response of the relay carries the three CORS headers,
    whatever the request, the environment and the provider. *)
Theorem relay_responses_carry_cors upstream request env r :
  (fetch upstream request env).2 = Responded r ->
  relay_headers r
  = [ ("Access-Control-Allow-Origin", "*");
      ("Access-Control-Allow-Methods", "POST, OPTIONS");
      ("Access-Control-Allow-Headers", "Content-Type") ].
Proof.
  intros Hr.
  assert (exists body status, r = corsResponse body status)
    as (body & status & ->); [|done].
  destruct (fetch_handled upstream request env)
    as [body status _| | | |]; cbn [snd] in Hr.
  - inversion Hr. eauto.
  - discriminate.
  - discriminate.
  - by eapply push_responded.
  - by eapply push_responded.
Qed.

Lemma relay_responses_carry_cors_witness :
  relay_headers (corsResponse (Some "Method Not Allowed") 405)
  = [ ("Access-Control-Allow-Origin", "*");
      ("Access-Control-Allow-Methods", "POST, OPTIONS");
      ("Access-Control-Allow-Headers", "Content-Type") ].
Proof.
  apply (relay_responses_carry_cors accepting (mkRelayRequest "GET" None)
           telegram_env).
  reflexivity.
Defined.

(** X12: the relay calls at most one provider, and only one that its
    environment configures.  An outbound request, when there is one, is
    the only one of the run; it is a POST of JSON, to the
    [sendMessage] endpoint of the configured bot or to the configured
    webhook.  Nothing in the request decides where it goes. *)
Theorem relay_outbound_destination upstream request env out :
  out ∈ (fetch upstream request env).1 ->
  (fetch upstream request env).1 = [out] /\
  out_method out = "POST" /\
  out_headers out = [("Content-Type", "application/json")] /\
  ((configured (TG_BOT_TOKEN env) = true /\
    configured (TG_CHAT_ID env) = true /\
    out_url out = "https://api.telegram.org/bot"
                  +:+ text_of (TG_BOT_TOKEN env) +:+ "/sendMessage") \/
   (configured (FEISHU_WEBHOOK env) = true /\
    out_url out = text_of (FEISHU_WEBHOOK env))).
Proof.
  intros Hin.
  destruct (fetch_handled upstream request env)
    as [body status _| | |msg Htoken Hchat|msg Hhook].
  - inversion Hin.
  - inversion Hin.
  - inversion Hin.
  - rewrite push_outbound in *. apply list_elem_of_singleton in Hin as ->.
    repeat split; auto.
  - rewrite push_outbound in *. apply list_elem_of_singleton in Hin as ->.
    repeat split; auto.
Qed.

Lemma relay_outbound_destination_witness :
  exists out,
    (fetch accepting (mkRelayRequest "POST" (Some (blog_application "feishu")))
           feishu_env).1 = [out] /\
    out_url out = "https://open.feishu.cn/hook/abc".
Proof.
  eexists.
  destruct (relay_outbound_destination accepting
              (mkRelayRequest "POST" (Some (blog_application "feishu")))
              feishu_env
              (feishu_request "https://open.feishu.cn/hook/abc" blog_message))
    as (Hone & _ & _ & _).
  - vm_compute. apply list_elem_of_here.
  - split; [exact Hone | reflexivity].
Defined.

(** X13: the relay answers 200 exactly when a provider accepted the
    message.  A 200 response means that one outbound request was sent
    and answered with a successful status, and its body is then
    [{ok:true}] as JSON; conversely an accepted outbound request is
    always answered 200. *)
Theorem relay_200_iff_accepted upstream request env :
  (forall r,
     (fetch upstream request env).2 = Responded r ->
     relay_status r = 200%nat ->
     relay_body r = Some ("{" +:+ dquote +:+ "ok" +:+ dquote +:+ ":true}") /\
     exists out, (fetch upstream request env).1 = [out] /\
                 upstream out = Answers true) /\
  (forall out,
     (fetch upstream request env).1 = [out] ->
     upstream out = Answers true ->
     exists r, (fetch upstream request env).2 = Responded r /\
               relay_status r = 200%nat).
Proof.
  assert (forall out r,
            (push upstream out).2 = Responded r -> relay_status r = 200%nat ->
            relay_body r
            = Some ("{" +:+ dquote +:+ "ok" +:+ dquote +:+ ":true}") /\
            exists out', (push upstream out).1 = [out'] /\
                         upstream out' = Answers true) as Hpush.
  { intros out r. unfold push.
    destruct (upstream out) as [[]| |] eqn:Hup; cbn; intros [= <-]; cbn;
      [|discriminate].
    intros _. split; [reflexivity|]. eauto. }
  assert (forall out out',
            (push upstream out).1 = [out'] -> upstream out' = Answers true ->
            exists r, (push upstream out).2 = Responded r /\
                      relay_status r = 200%nat) as Hsent.
  { intros out out'. rewrite push_outbound. intros [= <-] Hup.
    unfold push. rewrite Hup. cbn. eauto. }
  destruct (fetch_handled upstream request env)
    as [body status Hstatus| | | |]; cbn [fst snd].
  - split; [|intros out [=]].
    intros r [= <-]. cbn. intros ->. done.
  - split; [intros r [=] | intros out [=]].
  - split; [intros r [=] | intros out [=]].
  - split; [apply Hpush | apply Hsent].
  - split; [apply Hpush | apply Hsent].
Qed.

Lemma relay_200_iff_accepted_witness :
  exists r,
    (fetch accepting
           (mkRelayRequest "POST" (Some (blog_application "telegram")))
           telegram_env).2 = Responded r /\
    relay_status r = 200%nat.
Proof.
  apply (relay_200_iff_accepted accepting
           (mkRelayRequest "POST" (Some (blog_application "telegram")))
           telegram_env)
    with (out := telegram_request "123:abc" "42" blog_message);
    reflexivity.
Defined.

(** X14: the relay throws, instead of answering, in exactly three
    cases: a POST whose body is the JSON value [null]; a POST whose
    body has the three required fields and in which [name], [url],
    [logo] or [desc] does not convert to text, so that the message
    cannot be built; and a provider call that fails at the network
    level.  There is no handler around any of them. *)
Theorem relay_throws_iff upstream request env :
  (fetch upstream request env).2 = Thrown <->
  (relay_method request = "POST" /\ json_body request = Some JNull) \/
  (relay_method request = "POST" /\
   exists data,
     json_body request = Some data /\
     truthy (field "name" data) && truthy (field "url" data)
       && truthy (field "pushType" data) = true /\
     (value_toString (field "name" data) = None \/
      value_toString (field "url" data) = None \/
      value_toString (or_else (field "logo" data) (JStr "无")) = None \/
      value_toString (or_else (field "desc" data) (JStr "无")) = None)) \/
  (exists out, (fetch upstream request env).1 = [out] /\ upstream out = Fails).
Proof.
  assert (forall out,
            (push upstream out).2 = Thrown <->
            exists out', (push upstream out).1 = [out'] /\
                         upstream out' = Fails) as Hpush.
  { intros out. rewrite push_outbound. unfold push. split.
    - destruct (upstream out) as [[]| |] eqn:Hup; cbn; try discriminate.
      intros _. eauto.
    - intros (out' & [= <-] & Hup). by rewrite Hup. }
  split.
  - destruct (fetch_handled upstream request env)
      as [body status _|Hpost Hnull|data Hpost Hbody Hfields Hmsg| |];
      cbn [fst snd].
    + discriminate.
    + intros _. by left.
    + intros _. right. left. split; [done|]. exists data.
      split; [done|]. split; [done|]. by apply RelayFacts.message_none.
    + intros Hthrown. right. right. by apply Hpush.
    + intros Hthrown. right. right. by apply Hpush.
  - intros [[Hpost Hnull]|[(Hpost & data & Hbody & Hfields & Htext)|Hsent]].
    + unfold fetch. rewrite Hpost, Hnull. reflexivity.
    + assert (data <> JNull) as Hdata by (intros ->; discriminate).
      rewrite (RelayFacts.fetch_post _ _ _ _ Hpost Hbody Hdata).
      apply andb_true_iff in Hfields as [Hfields Hpush_type].
      apply andb_true_iff in Hfields as [Hname Hurl].
      rewrite Hname, Hurl, Hpush_type. cbn [negb orb].
      by rewrite (proj2 (RelayFacts.message_none _ _ _ _) Htext).
    + destruct (fetch_handled upstream request env)
        as [body status _| | | |]; cbn [fst snd] in *.
      * destruct Hsent as (out & [=] & _).
      * done.
      * done.
      * by apply Hpush.
      * by apply Hpush.
Qed.

Lemma relay_throws_iff_witness :
  (fetch accepting (mkRelayRequest "POST" (Some JNull)) telegram_env).2
  = Thrown /\
  (fetch accepting
         (mkRelayRequest "POST" (Some (odd_logo_application "telegram")))
         telegram_env).2
  = Thrown /\
  (fetch unreachable
         (mkRelayRequest "POST" (Some (blog_application "telegram")))
         telegram_env).2
  = Thrown.
Proof.
  split; [|split].
  - apply (relay_throws_iff accepting (mkRelayRequest "POST" (Some JNull))
             telegram_env).
    left. split; reflexivity.
  - apply (relay_throws_iff accepting
             (mkRelayRequest "POST" (Some (odd_logo_application "telegram")))
             telegram_env).
    right. left. split; [reflexivity|].
    exists (odd_logo_application "telegram").
    split; [reflexivity|]. split; [reflexivity|].
    right. right. left. reflexivity.
  - apply (relay_throws_iff unreachable
             (mkRelayRequest "POST" (Some (blog_application "telegram")))
             telegram_env).
    right. right. exists (telegram_request "123:abc" "42" blog_message).
    split; reflexivity.
Defined.

Lemma truthy_all name url pushType :
  truthy name = true -> truthy url = true -> truthy pushType = true ->
  negb (truthy name) || negb (truthy url) || negb (truthy pushType) = false.
Proof. by intros -> -> ->. Qed.

(** X15: a POST whose body supplies [name], [url] and the [pushType]
    [feishu], and whose [name], [url], [logo] and [desc] convert to
    text, with the webhook configured and the webhook accepting the
    message, makes the relay send exactly one outbound request: a POST
    of JSON to the webhook, whose body is a Feishu text message, the
    text being the template filled with the four texts, so that it
    contains the name and the url.  The relay answers with status 200,
    the body [{ok:true}] serialized as JSON, and the three CORS
    headers. *)
Theorem feishu_push_succeeds
    upstream data env name_text url_text logo_text desc_text :
  truthy (field "name" data) = true ->
  truthy (field "url" data) = true ->
  field "pushType" data = Some (JStr "feishu") ->
  value_toString (field "name" data) = Some name_text ->
  value_toString (field "url" data) = Some url_text ->
  value_toString (or_else (field "logo" data) (JStr "无")) = Some logo_text ->
  value_toString (or_else (field "desc" data) (JStr "无")) = Some desc_text ->
  configured (FEISHU_WEBHOOK env) = true ->
  (forall out, out_url out = text_of (FEISHU_WEBHOOK env) ->
               upstream out = Answers true) ->
  exists out r msg,
    fetch upstream (mkRelayRequest "POST" (Some data)) env
    = ([out], Responded r) /\
    out_url out = text_of (FEISHU_WEBHOOK env) /\
    out_method out = "POST" /\
    out_headers out = [("Content-Type", "application/json")] /\
    out_body out
    = "{" +:+ dquote +:+ "msg_type" +:+ dquote +:+ ":"
      +:+ dquote +:+ "text" +:+ dquote +:+ ","
      +:+ dquote +:+ "content" +:+ dquote +:+ ":{"
      +:+ dquote +:+ "text" +:+ dquote +:+ ":"
      +:+ dquote +:+ escape msg +:+ dquote +:+ "}}" /\
    msg = "【友链申请】" +:+ lf +:+ "站点名: " +:+ name_text +:+ lf +:+
          "链接: " +:+ url_text +:+ lf +:+
          "Logo: " +:+ logo_text +:+ lf +:+
          "描述: " +:+ desc_text /\
    includes msg name_text = true /\
    includes msg url_text = true /\
    relay_status r = 200%nat /\
    relay_body r = Some ("{" +:+ dquote +:+ "ok" +:+ dquote +:+ ":true}") /\
    relay_headers r
    = [ ("Access-Control-Allow-Origin", "*");
        ("Access-Control-Allow-Methods", "POST, OPTIONS");
        ("Access-Control-Allow-Headers", "Content-Type") ].
Proof.
  intros Hname Hurl Hpush Hname_text Hurl_text Hlogo_text Hdesc_text
    Hhook Hup.
  set (msg := "【友链申请】" +:+ lf +:+ "站点名: " +:+ name_text +:+ lf +:+
              "链接: " +:+ url_text +:+ lf +:+
              "Logo: " +:+ logo_text +:+ lf +:+
              "描述: " +:+ desc_text).
  assert (message (field "name" data) (field "url" data)
                  (field "logo" data) (field "desc" data) = Some msg) as Hmsg.
  { apply RelayFacts.message_text.
    by exists name_text, url_text, logo_text, desc_text. }
  exists (feishu_request (text_of (FEISHU_WEBHOOK env)) msg),
         (corsResponse (Some (stringify (JObj [("ok", JBool true)]))) 200),
         msg.
  split.
  - assert (data <> JNull) as Hdata by (intros ->; discriminate).
    rewrite (RelayFacts.fetch_post upstream
               (mkRelayRequest "POST" (Some data)) env data
               eq_refl eq_refl Hdata).
    rewrite truthy_all by (by rewrite ?Hpush).
    rewrite Hmsg, Hpush, Hhook. cbn [is_string negb].
    change (String.eqb "feishu" "telegram") with false.
    change (String.eqb "feishu" "feishu") with true.
    cbv iota. unfold push. by rewrite Hup.
  - destruct (RelayFacts.message_includes name_text url_text logo_text
                desc_text msg eq_refl) as [Hhas_name Hhas_url].
    repeat split; try reflexivity; try assumption.
    apply RelayFacts.stringify_feishu.
Qed.

Lemma feishu_push_succeeds_witness :
  exists out r msg,
    fetch accepting (mkRelayRequest "POST" (Some (blog_application "feishu")))
          feishu_env
    = ([out], Responded r) /\
    out_url out = "https://open.feishu.cn/hook/abc" /\
    out_method out = "POST" /\
    out_headers out = [("Content-Type", "application/json")] /\
    out_body out
    = "{" +:+ dquote +:+ "msg_type" +:+ dquote +:+ ":"
      +:+ dquote +:+ "text" +:+ dquote +:+ ","
      +:+ dquote +:+ "content" +:+ dquote +:+ ":{"
      +:+ dquote +:+ "text" +:+ dquote +:+ ":"
      +:+ dquote +:+ escape msg +:+ dquote +:+ "}}" /\
    msg = blog_message /\
    includes msg "Blog" = true /\
    includes msg "https://x.example" = true /\
    relay_status r = 200%nat /\
    relay_body r = Some ("{" +:+ dquote +:+ "ok" +:+ dquote +:+ ":true}") /\
    relay_headers r
    = [ ("Access-Control-Allow-Origin", "*");
        ("Access-Control-Allow-Methods", "POST, OPTIONS");
        ("Access-Control-Allow-Headers", "Content-Type") ].
Proof.
  apply (feishu_push_succeeds accepting (blog_application "feishu")
           feishu_env "Blog" "https://x.example" "无" "无"); reflexivity.
Defined.



(** X17: a [pushType] that is neither the string [telegram] nor the
    string [feishu], in a body whose [name], [url], [logo] and [desc]
    convert to text, is answered with status 400, the
    unsupported-method message as body and the three CORS headers, and
    nothing is sent, even when both providers are configured. *)
Theorem unsupported_pushType_rejected upstream data env msg :
  truthy (field "name" data) = true ->
  truthy (field "url" data) = true ->
  truthy (field "pushType" data) = true ->
  field "pushType" data <> Some (JStr "telegram") ->
  field "pushType" data <> Some (JStr "feishu") ->
  message (field "name" data) (field "url" data)
          (field "logo" data) (field "desc" data) = Some msg ->
  exists r,
    fetch upstream (mkRelayRequest "POST" (Some data)) env
    = ([], Responded r) /\
    relay_status r = 400%nat /\
    relay_body r = Some "不支持的推送方式" /\
    relay_headers r
    = [ ("Access-Control-Allow-Origin", "*");
        ("Access-Control-Allow-Methods", "POST, OPTIONS");
        ("Access-Control-Allow-Headers", "Content-Type") ].
Proof.
  intros Hname Hurl Hpush Htg Hfs Hmsg.
  exists (corsResponse (Some "不支持的推送方式") 400).
  split; [|repeat split; reflexivity].
  assert (data <> JNull) as Hdata by (intros ->; discriminate).
  rewrite (RelayFacts.fetch_post upstream (mkRelayRequest "POST" (Some data))
             env data eq_refl eq_refl Hdata).
  rewrite truthy_all by done. rewrite Hmsg.
  destruct (is_string (field "pushType" data) "telegram") eqn:H1.
  { by apply RelayFacts.is_string_eq in H1. }
  destruct (is_string (field "pushType" data) "feishu") eqn:H2.
  { by apply RelayFacts.is_string_eq in H2. }
  done.
Qed.

Lemma unsupported_pushType_rejected_witness :
  exists r,
    fetch accepting
          (mkRelayRequest "POST" (Some (blog_application "Telegram")))
          telegram_env
    = ([], Responded r) /\
    relay_status r = 400%nat /\
    relay_body r = Some "不支持的推送方式" /\
    relay_headers r
    = [ ("Access-Control-Allow-Origin", "*");
        ("Access-Control-Allow-Methods", "POST, OPTIONS");
        ("Access-Control-Allow-Headers", "Content-Type") ].
Proof.
  apply (unsupported_pushType_rejected accepting
           (blog_application "Telegram") telegram_env blog_message);
    reflexivity || discriminate.
Defined.

(** X18: with [pushType] [telegram], in a body whose [name], [url],
    [logo] and [desc] convert to text, and the bot token or the chat id
    unset or empty, the relay answers with status 500, the
    configuration-missing message as body and the three CORS headers,
    and nothing is sent. *)
Theorem telegram_unconfigured upstream data env msg :
  truthy (field "name" data) = true ->
  truthy (field "url" data) = true ->
  field "pushType" data = Some (JStr "telegram") ->
  message (field "name" data) (field "url" data)
          (field "logo" data) (field "desc" data) = Some msg ->
  configured (TG_BOT_TOKEN env) && configured (TG_CHAT_ID env) = false ->
  exists r,
    fetch upstream (mkRelayRequest "POST" (Some data)) env
    = ([], Responded r) /\
    relay_status r = 500%nat /\
    relay_body r = Some "Telegram配置缺失" /\
    relay_headers r
    = [ ("Access-Control-Allow-Origin", "*");
        ("Access-Control-Allow-Methods", "POST, OPTIONS");
        ("Access-Control-Allow-Headers", "Content-Type") ].
Proof.
  intros Hname Hurl Hpush Hmsg Hconf.
  exists (corsResponse (Some "Telegram配置缺失") 500).
  split; [|repeat split; reflexivity].
  assert (data <> JNull) as Hdata by (intros ->; discriminate).
  rewrite (RelayFacts.fetch_post upstream (mkRelayRequest "POST" (Some data))
             env data eq_refl eq_refl Hdata).
  rewrite truthy_all by (by rewrite ?Hpush).
  rewrite Hmsg, Hpush. cbn [is_string].
  change (String.eqb "telegram" "telegram") with true. cbv iota.
  by destruct (configured (TG_BOT_TOKEN env)), (configured (TG_CHAT_ID env)).
Qed.

Lemma telegram_unconfigured_witness :
  exists r,
    fetch accepting
          (mkRelayRequest "POST" (Some (blog_application "telegram")))
          feishu_env
    = ([], Responded r) /\
    relay_status r = 500%nat /\
    relay_body r = Some "Telegram配置缺失" /\
    relay_headers r
    = [ ("Access-Control-Allow-Origin", "*");
        ("Access-Control-Allow-Methods", "POST, OPTIONS");
        ("Access-Control-Allow-Headers", "Content-Type") ].
Proof.
  apply (telegram_unconfigured accepting (blog_application "telegram")
           feishu_env blog_message); reflexivity.
Defined.



End RelayMore.

(** ** Properties of the quote widget's API manager *)

Module ApiFacts.
Import JsString Relay Api.






Lemma lookup_foldl_delete {V} (keys : list string) (m : gmap string V) key :
  foldl (fun c k => delete k c) m keys !! key
  = if bool_decide (key ∈ keys) then None else m !! key.
Proof.
  revert m. induction keys as [|a keys IH]; intros m; cbn [foldl].
  - by rewrite bool_decide_eq_false_2 by (intros H; inversion H).
  - rewrite IH. destruct (decide (key = a)) as [->|Hne].
    + rewrite lookup_delete_eq.
      rewrite (bool_decide_eq_true_2 (a ∈ a :: keys)) by apply list_elem_of_here.
      by case_bool_decide.
    + rewrite lookup_delete_ne by done.
      apply (f_equal (fun b : bool => if b then None else m !! key)).
      apply bool_decide_ext. rewrite elem_of_cons. intuition congruence.
Qed.

Lemma _cleanupHitokotoCache_lookup c key :
  _cleanupHitokotoCache c !! key
  = if startsWith key "hitokoto_" then None else c !! key.
Proof.
  unfold _cleanupHitokotoCache. rewrite lookup_foldl_delete.
  case_bool_decide as Hin.
  - apply list_elem_of_In, filter_In in Hin as [_ ->]. done.
  - destruct (startsWith key "hitokoto_") eqn:Hp; [|done].
    destruct (c !! key) as [v|] eqn:Hc; [|done].
    exfalso. apply Hin. apply list_elem_of_In, filter_In. split; [|done].
    apply list_elem_of_In, list_elem_of_fmap. exists (key, v).
    split; [done|]. by apply elem_of_map_to_list.
Qed.

(** X21: after a successful answer of the primary API the cache holds
    exactly one quote: the new one, under the key of this call.  Every
    other key that starts with [hitokoto_] is gone, and the keys that do
    not start with it are as they were. *)
Theorem getHitokoto_keeps_latest_quote
    now stamp jsonData backup fallback_now k s key :
  jsonData <> JNull ->
  let result := getHitokoto now stamp (Answered true (Some jsonData)) backup
                            fallback_now k s in
  success result.2 = true /\
  cache result.1 !! key
  = if String.eqb key ("hitokoto_" +:+ number_toString now)
    then Some result.2
    else if startsWith key "hitokoto_" then None
    else cache s !! key.
Proof.
  intros Hdata result. subst result. unfold getHitokoto.
  destruct jsonData; try done; cbn [fst snd cache success].
  all: split; [done|].
  all: destruct (String.eqb_spec key ("hitokoto_" +:+ number_toString now))
         as [->|Hne];
       [by rewrite lookup_insert_eq|].
  all: rewrite lookup_insert_ne by done.
  all: apply _cleanupHitokotoCache_lookup.
Qed.

Lemma getHitokoto_keeps_latest_quote_witness :
  cache (getHitokoto 1700000000000 "2023-11-14T22:13:20.000Z"
           (Answered true (Some (JObj [("hitokoto", JStr "你若安好")])))
           Failed 0 0
           (mkApiState
              {[ "hitokoto_1600000000000" :=
                   mkHitokoto (Some (JStr "old")) None true false false "" ]}
              ∅)).1
    !! "hitokoto_1600000000000"
  = None.
Proof.
  apply (getHitokoto_keeps_latest_quote 1700000000000
           "2023-11-14T22:13:20.000Z"
           (JObj [("hitokoto", JStr "你若安好")]) Failed 0 0
           (mkApiState
              {[ "hitokoto_1600000000000" :=
                   mkHitokoto (Some (JStr "old")) None true false false "" ]}
              ∅)
           "hitokoto_1600000000000").
  discriminate.
Defined.

(** X22: a quote reported as a success is in the cache under the key
    of the call, and a quote reported as a failure is the local
    fallback and leaves the manager as it was.  The backup API's quote
    is added without the clean-up of the primary path: every other key
    keeps its entry. *)
Theorem getHitokoto_success_is_cached
    now stamp primary backup fallback_now k s :
  let result := getHitokoto now stamp primary backup fallback_now k s in
  (success result.2 = true ->
   cache result.1 !! ("hitokoto_" +:+ number_toString now) = Some result.2) /\
  (success result.2 = false ->
   result.1 = s /\ isFallback result.2 = true) /\
  (isBackup result.2 = true ->
   forall key, key <> "hitokoto_" +:+ number_toString now ->
               cache result.1 !! key = cache s !! key).
Proof.
  intros result. subst result. unfold getHitokoto.
  destruct primary as [[] [[]|]|], backup as [[] [[]|]|];
    cbn [fst snd cache success isFallback isBackup];
    repeat split; try done;
    try (intros _; apply lookup_insert_eq);
    try (intros _ key Hne; by rewrite lookup_insert_ne).
Qed.

Lemma getHitokoto_success_is_cached_witness :
  (getHitokoto 1700000000000 "2023-11-14T22:13:20.000Z" Failed
     (Answered false None) 1700000000123 456 (mkApiState ∅ ∅)).1
  = mkApiState ∅ ∅.
Proof.
  apply (getHitokoto_success_is_cached 1700000000000
           "2023-11-14T22:13:20.000Z" Failed (Answered false None)
           1700000000123 456 (mkApiState ∅ ∅)).
  reflexivity.
Defined.

End ApiFacts.
(** ** Properties of the bounded logs *)

Module TelemetryFacts.
Import Telemetry.

Section Logs.

Context {A : Type}.
Variable fits : list A -> bool.
Variable event_of : A -> A.

Lemma slice_last_length (n : nat) (l : list A) :
  length (slice_last n l) = Nat.min n (length l).
Proof. unfold slice_last. rewrite length_drop. lia. Qed.

Lemma drop_suffix (n : nat) (l : list A) : drop n l `suffix_of` l.
Proof. exists (take n l). by rewrite take_drop. Qed.

Lemma last_drop_snoc (n : nat) (l : list A) x :
  (n <= length l)%nat -> last (drop n (l ++ [x])) = Some x.
Proof.
  intros Hn. rewrite drop_app_le by done. apply last_snoc.
Qed.

Lemma capped_push (limit keep : nat) (l : list A) x :
  (keep <= limit)%nat -> (1 <= keep)%nat ->
  let pushed := (l ++ [x])%list in
  let kept := if (limit <? length pushed)%nat then slice_last keep pushed
              else pushed in
  (length kept <= limit)%nat /\
  last kept = Some x /\
  kept `suffix_of` pushed.
Proof.
  intros Hkeep Hone pushed kept. subst kept pushed.
  destruct (Nat.ltb_spec limit (length (l ++ [x]))) as [Hlong|Hshort].
  - rewrite slice_last_length. split; [lia|]. split.
    + unfold slice_last. apply last_drop_snoc.
      rewrite length_app in *. cbn in *. lia.
    + apply drop_suffix.
  - split; [done|]. split; [apply last_snoc | done].
Qed.

(** X23: the interaction and error buffers of the analytics manager
    are bounded and keep the newest record.  After [trackInteraction]
    the buffer has at most 100 records, after [trackError] the error
    buffer has at most 20, whatever they held before; the record just
    tracked is the last one, the buffer is the end of the old buffer
    with the new record, and the other buffer is untouched. *)
Theorem tracking_buffers_bounded (a : Analytics A) (x : A) :
  ((length (interactions A (trackInteraction A fits event_of a x)) <= 100)%nat /\
   last (interactions A (trackInteraction A fits event_of a x)) = Some x /\
   interactions A (trackInteraction A fits event_of a x)
     `suffix_of` (interactions A a ++ [x])%list /\
   errors A (trackInteraction A fits event_of a x) = errors A a) /\
  ((length (errors A (trackError A fits event_of a x)) <= 20)%nat /\
   last (errors A (trackError A fits event_of a x)) = Some x /\
   errors A (trackError A fits event_of a x)
     `suffix_of` (errors A a ++ [x])%list /\
   interactions A (trackError A fits event_of a x) = interactions A a).
Proof.
  split.
  - destruct (capped_push 100 50 (interactions A a) x) as (H1 & H2 & H3);
      [lia|lia|].
    unfold trackInteraction, trackEvent. cbn [interactions errors]. auto.
  - destruct (capped_push 20 10 (errors A a) x) as (H1 & H2 & H3);
      [lia|lia|].
    unfold trackError, trackEvent. cbn [interactions errors]. auto.
Qed.

(** What [store_capped] leaves: the last [limit] of the old log with
    the new record when the stored value is usable and the write is
    accepted, the stored value itself otherwise. *)
Lemma store_capped_eq (limit : nat) (stored : Stored A) (x : A) :
  let old := match stored with Entries l => l | _ => [] end in
  store_capped A fits limit stored x
  = match stored with
    | Unusable => stored
    | _ => if fits (slice_last limit (old ++ [x]))
           then Entries (slice_last limit (old ++ [x]))
           else stored
    end.
Proof.
  intros old.
  assert (forall l : list A,
            (if (limit <? length l)%nat then drop (length l - limit) l else l)
            = slice_last limit l) as Htrim.
  { intros l. unfold slice_last.
    destruct (Nat.ltb_spec limit (length l)) as [Hlong|Hshort]; [done|].
    by replace (length l - limit)%nat with 0%nat by lia. }
  unfold store_capped. subst old.
  destruct stored as [|l|]; [| |done]; by rewrite Htrim.
Qed.

Lemma slice_last_snoc (limit : nat) (l : list A) (x : A) :
  (1 <= limit)%nat ->
  (length (slice_last limit (l ++ [x])) <= limit)%nat /\
  last (slice_last limit (l ++ [x])) = Some x /\
  slice_last limit (l ++ [x]) `suffix_of` (l ++ [x])%list.
Proof.
  intros Hlimit. rewrite slice_last_length. split; [lia|]. split.
  - unfold slice_last. apply last_drop_snoc.
    rewrite length_app. cbn. lia.
  - apply drop_suffix.
Qed.

(** X24: the logs kept in local storage are bounded.  When the stored
    value is usable (absent or an array) and the write is accepted,
    [_storeEvent] writes the last 100 of the old log with the new event
    and [_reportError] the last 20 of the old log with the new report:
    at most 100 and 20 records, the new record last and the oldest
    dropped first.  When the stored value is unusable or the write is
    refused, the storage is left exactly as it was. *)
Theorem stored_logs_bounded (stored : Stored A) (x : A) :
  let old := match stored with Entries l => l | _ => [] end in
  let events := slice_last 100 (old ++ [x]) in
  let reports := slice_last 20 (old ++ [x]) in
  ((stored <> Unusable -> fits events = true ->
    _storeEvent A fits stored x = Entries events) /\
   (stored = Unusable \/ fits events = false ->
    _storeEvent A fits stored x = stored) /\
   (length events <= 100)%nat /\
   last events = Some x /\
   events `suffix_of` (old ++ [x])%list) /\
  ((stored <> Unusable -> fits reports = true ->
    _reportError A fits stored x = Entries reports) /\
   (stored = Unusable \/ fits reports = false ->
    _reportError A fits stored x = stored) /\
   (length reports <= 20)%nat /\
   last reports = Some x /\
   reports `suffix_of` (old ++ [x])%list).
Proof.
  intros old events reports.
  assert (forall limit, (1 <= limit)%nat ->
            let kept := slice_last limit (old ++ [x]) in
            (stored <> Unusable -> fits kept = true ->
             store_capped A fits limit stored x = Entries kept) /\
            (stored = Unusable \/ fits kept = false ->
             store_capped A fits limit stored x = stored) /\
            (length kept <= limit)%nat /\
            last kept = Some x /\
            kept `suffix_of` (old ++ [x])%list) as Hcapped.
  { intros limit Hlimit kept.
    pose proof (store_capped_eq limit stored x) as Heq. cbn zeta in Heq.
    fold old in Heq. fold kept in Heq.
    split; [|split; [|by apply slice_last_snoc]].
    - intros Husable Hfits. rewrite Heq, Hfits. by destruct stored.
    - intros [->|Hfits]; [done|]. rewrite Heq, Hfits. by destruct stored. }
  split; [apply (Hcapped 100) | apply (Hcapped 20)]; lia.
Qed.

Lemma tail_drop (n : nat) (l : list A) : tail (drop n l) = drop (S n) l.
Proof.
  revert n. induction l as [|y l IH]; intros [|n]; cbn; auto.
Qed.

Lemma _addToErrorQueue_step (h : list A) x :
  _addToErrorQueue A (slice_last maxErrors h) x
  = slice_last maxErrors (h ++ [x]).
Proof.
  unfold _addToErrorQueue, slice_last, maxErrors.
  rewrite !length_app, length_drop. cbn [length].
  destruct (Nat.ltb_spec 10 (length h - (length h - 10) + 1)) as [Hlong|Hshort].
  - assert (10 <= length h)%nat as Hh by lia.
    rewrite <- (drop_app_le h [x]) by lia.
    replace (length h + 1 - 10)%nat with (S (length h - 10)) by lia.
    by rewrite tail_drop.
  - replace (length h - 10)%nat with 0%nat by lia.
    replace (length h + 1 - 10)%nat with 0%nat by lia. done.
Qed.

(** X25: the error queue holds the ten most recent errors.  Starting
    from an empty queue, after any number of errors the queue is the
    last [maxErrors] of them, in order, so it never grows beyond ten. *)
Theorem errorQueue_keeps_most_recent (history : list A) :
  foldl (_addToErrorQueue A) [] history = slice_last maxErrors history /\
  (length (foldl (_addToErrorQueue A) [] history) <= maxErrors)%nat.
Proof.
  assert (foldl (_addToErrorQueue A) [] history = slice_last maxErrors history)
    as Heq.
  { induction history as [|x history IH] using rev_ind; [done|].
    rewrite foldl_app. cbn [foldl]. rewrite IH. apply _addToErrorQueue_step. }
  split; [done|]. rewrite Heq, slice_last_length. lia.
Qed.

End Logs.

Lemma stored_logs_bounded_witness :
  _storeEvent nat (fun _ => true) (Entries (seq 0 100)) 100
  = Entries (seq 1 100) /\
  _reportError nat (fun _ => false) (Entries [1; 2]) 3 = Entries [1; 2].
Proof.
  destruct (stored_logs_bounded (fun _ => true) (Entries (seq 0 100)) 100)
    as [(Hwritten & _) _].
  destruct (stored_logs_bounded (fun _ => false) (Entries [1; 2]) 3)
    as [_ (_ & Hrefused & _)].
  split.
  - apply Hwritten; [discriminate | reflexivity].
  - apply Hrefused. right. reflexivity.
Defined.

Lemma attempt_keeps_bounds (m : gmap string nat) key :
  map_Forall (fun _ n => 1 <= n <= maxRetries)%nat m ->
  map_Forall (fun _ n => 1 <= n <= maxRetries)%nat (_attemptRecovery m key).1.
Proof.
  intros Hm. unfold _attemptRecovery.
  destruct (Nat.ltb_spec (default 0%nat (m !! key)) maxRetries) as [Hlt|Hge];
    cbn [fst].
  - apply map_Forall_insert_2; [lia|done].
  - by apply map_Forall_delete.
Qed.

Lemma attempt_allowed (m : gmap string nat) key :
  (_attemptRecovery m key).2 = (default 0 (m !! key) <? maxRetries)%nat.
Proof.
  unfold _attemptRecovery.
  by destruct (default 0 (m !! key) <? maxRetries)%nat.
Qed.

Lemma attempt_refused (m : gmap string nat) key :
  (_attemptRecovery m key).2 = false ->
  (_attemptRecovery m key).1 = delete key m.
Proof.
  unfold _attemptRecovery.
  by destruct (default 0 (m !! key) <? maxRetries)%nat.
Qed.

(** X26: recovery is attempted at most [maxRetries] times in a row
    for one kind of error.  Over any sequence of attempts from an empty
    table, every counter in the table is between 1 and 3; an attempt is
    refused exactly when its counter has reached 3, and the refusal
    resets the counter, so that the next attempt is allowed again. *)
Theorem retries_bounded (keys : list string) (key : string) :
  let table := foldl (fun m k => (_attemptRecovery m k).1) ∅ keys in
  map_Forall (fun _ n => 1 <= n <= maxRetries)%nat table /\
  ((_attemptRecovery table key).2 = false <-> table !! key = Some maxRetries) /\
  ((_attemptRecovery table key).2 = false ->
   (_attemptRecovery (_attemptRecovery table key).1 key).2 = true).
Proof.
  intros table.
  assert (map_Forall (fun _ n => 1 <= n <= maxRetries)%nat table) as Hall.
  { subst table. induction keys as [|k keys IH] using rev_ind.
    - apply map_Forall_empty.
    - rewrite foldl_app. cbn [foldl]. by apply attempt_keeps_bounds. }
  split; [done|]. split.
  - rewrite attempt_allowed, Nat.ltb_ge.
    destruct (table !! key) as [n|] eqn:Hn.
    + pose proof (Hall key n Hn) as Hbound. cbn in Hbound.
      change (default 0%nat (Some n)) with n.
      split; [intros H; f_equal; lia | intros [= ->]; lia].
    + change (default 0%nat (@None nat)) with 0%nat. unfold maxRetries.
      split; [lia | discriminate].
  - intros Hrefused. rewrite (attempt_refused _ _ Hrefused).
    by rewrite attempt_allowed, lookup_delete_eq.
Qed.

Lemma retries_bounded_witness :
  (_attemptRecovery
     (foldl (fun m k => (_attemptRecovery m k).1) ∅ ["net"; "net"; "net"])
     "net").2
  = false.
Proof.
  apply (retries_bounded ["net"; "net"; "net"] "net").
  vm_compute. reflexivity.
Defined.

End TelemetryFacts.

(** ** Properties of the application's resource loading *)

Module AppFacts.
Import Page App.


End AppFacts.
